(** * The 2D funnel potential notebook: potential surface, plotting call,
      initial-position sampling, engine set-up and the sampling loop.

    Source: [2D_funnel_potential.ipynb].  Floating-point numbers are read as
    real numbers (the model does not round), but for the two divisions
    that size the plotting grid, where rounding decides a count: their
    rounding is a parameter.  Python dicts are finite maps, and the calls
    made to the simulation engine and to the plotting library are events
    of a trace; what the engine itself refuses is a parameter too. *)

From Stdlib Require Import Reals Lra Lia ZArith List Ascii String Bool DecimalString.
From Stdlib Require Import DecimalNat.
From stdpp Require Import gmap strings.

Import ListNotations.
Local Open Scope R_scope.

(* ===================================================================== *)
(** * Symbolic energy expressions *)
(* ===================================================================== *)

(** The force evaluator receives the energy as a string over the
    per-particle coordinates [x], [y], [z] with the operators
    [+ - * / ^] and the functions [sqrt], [cos], [exp].  The module reads
    such a string: a tokenizer, a precedence-climbing parser (binary [+ -]
    at level 0, [* /] at level 1, unary minus at level 2, [^] at level 3
    and right associative) and the real-number meaning of the tree. *)
Module Lepton.

Inductive coord := X | Y | Z.
Inductive func := Fsqrt | Fcos | Fexp | Fsin.
Inductive binop := Add | Sub | Mul | Div | Pow.

(** A numeric literal [digits.digits] is kept as written: the integer
    spelled by all its digits and the number of digits after the point. *)
Inductive expr :=
| Const (mantissa : N) (decimals : nat)
| Var (c : coord)
| Neg (e : expr)
| Bin (op : binop) (l r : expr)
| App (f : func) (arg : expr).

Inductive token :=
| TNum (mantissa : N) (decimals : nat)
| TId (name : list ascii)
| TOp (op : binop)
| TLParen
| TRParen.

Definition is_digit (c : ascii) : bool :=
  let n := nat_of_ascii c in (48 <=? n)%nat && (n <=? 57)%nat.

Definition is_alpha (c : ascii) : bool :=
  let n := nat_of_ascii c in
  ((65 <=? n)%nat && (n <=? 90)%nat) || ((97 <=? n)%nat && (n <=? 122)%nat).

Definition is_space (c : ascii) : bool :=
  let n := nat_of_ascii c in (n =? 32)%nat || (n =? 9)%nat || (n =? 10)%nat.

Definition digit_val (c : ascii) : N := N.of_nat (nat_of_ascii c - 48).

Definition op_of_ascii (c : ascii) : option binop :=
  if Ascii.eqb c "+" then Some Add
  else if Ascii.eqb c "-" then Some Sub
  else if Ascii.eqb c "*" then Some Mul
  else if Ascii.eqb c "/" then Some Div
  else if Ascii.eqb c "^" then Some Pow
  else None.

(** Longest prefix of characters satisfying [p], and the rest. *)
Fixpoint span (p : ascii -> bool) (s : list ascii) : list ascii * list ascii :=
  match s with
  | c :: s' =>
      if p c then let '(a, b) := span p s' in (c :: a, b) else ([], s)
  | [] => ([], [])
  end.

Definition digits_val (ds : list ascii) (acc : N) : N :=
  fold_left (fun a c => (10 * a + digit_val c)%N) ds acc.

(** Reads a number at the head of [s] (its first character is a digit). *)
Definition lex_number (s : list ascii) : token * list ascii :=
  let '(ip, rest) := span is_digit s in
  match rest with
  | c :: rest' =>
      if Ascii.eqb c "." then
        let '(fp, rest'') := span is_digit rest' in
        (TNum (digits_val fp (digits_val ip 0%N)) (List.length fp), rest'')
      else (TNum (digits_val ip 0%N) 0, rest)
  | [] => (TNum (digits_val ip 0%N) 0, [])
  end.

Fixpoint tokenize (fuel : nat) (s : list ascii) : option (list token) :=
  match fuel with
  | O => None
  | S fuel' =>
      match s with
      | [] => Some []
      | c :: s' =>
          if is_space c then tokenize fuel' s'
          else if is_digit c then
            let '(t, rest) := lex_number s in
            option_map (cons t) (tokenize fuel' rest)
          else if is_alpha c then
            let '(name, rest) := span is_alpha s in
            option_map (cons (TId name)) (tokenize fuel' rest)
          else if Ascii.eqb c "(" then option_map (cons TLParen) (tokenize fuel' s')
          else if Ascii.eqb c ")" then option_map (cons TRParen) (tokenize fuel' s')
          else match op_of_ascii c with
               | Some op => option_map (cons (TOp op)) (tokenize fuel' s')
               | None => None
               end
      end
  end.

Definition precedence (op : binop) : nat :=
  match op with Add | Sub => 0 | Mul | Div => 1 | Pow => 3 end.

Definition left_assoc (op : binop) : bool :=
  match op with Pow => false | _ => true end.

Definition coord_of_name (n : list ascii) : option coord :=
  match n with
  | [c] =>
      if Ascii.eqb c "x" then Some X
      else if Ascii.eqb c "y" then Some Y
      else if Ascii.eqb c "z" then Some Z
      else None
  | _ => None
  end.

Definition func_of_name (n : list ascii) : option func :=
  let s := string_of_list_ascii n in
  if String.eqb s "sqrt" then Some Fsqrt
  else if String.eqb s "cos" then Some Fcos
  else if String.eqb s "exp" then Some Fexp
  else if String.eqb s "sin" then Some Fsin
  else None.

(** [parse_prec fuel toks p] reads an expression whose binary operators
    all have precedence at least [p]; [climb] extends a left operand. *)
Fixpoint parse_prec (fuel : nat) (toks : list token) (p : nat)
  : option (expr * list token) :=
  match fuel with
  | O => None
  | S fuel' =>
      match toks with
      | TNum m d :: rest => climb fuel' (Const m d) rest p
      | TId name :: TLParen :: rest =>
          match func_of_name name, parse_prec fuel' rest 0 with
          | Some f, Some (arg, TRParen :: rest') => climb fuel' (App f arg) rest' p
          | _, _ => None
          end
      | TId name :: rest =>
          match coord_of_name name with
          | Some c => climb fuel' (Var c) rest p
          | None => None
          end
      | TLParen :: rest =>
          match parse_prec fuel' rest 0 with
          | Some (e, TRParen :: rest') => climb fuel' e rest' p
          | _ => None
          end
      | TOp Sub :: rest =>
          match parse_prec fuel' rest 2 with
          | Some (e, rest') => climb fuel' (Neg e) rest' p
          | None => None
          end
      | _ => None
      end
  end
with climb (fuel : nat) (lhs : expr) (toks : list token) (p : nat)
  : option (expr * list token) :=
  match fuel with
  | O => None
  | S fuel' =>
      match toks with
      | TOp op :: rest =>
          if (p <=? precedence op)%nat then
            let q := if left_assoc op then S (precedence op) else precedence op in
            match parse_prec fuel' rest q with
            | Some (rhs, rest') => climb fuel' (Bin op lhs rhs) rest' p
            | None => None
            end
          else Some (lhs, toks)
      | _ => Some (lhs, toks)
      end
  end.

(** A string is an expression when all of it is read. *)
Definition parse (s : string) : option expr :=
  let cs := list_ascii_of_string s in
  match tokenize (S (List.length cs)) cs with
  | Some toks =>
      match parse_prec (2 * S (List.length toks)) toks 0 with
      | Some (e, []) => Some e
      | _ => None
      end
  | None => None
  end.

Definition const_val (m : N) (d : nat) : R := IZR (Z.of_N m) / 10 ^ d.

(** An exponent written as a whole-number literal is an integer power
    (repeated multiplication, defined for every base); any other
    exponent is the real power [exp (b * ln a)]. *)
Definition nat_exponent (e : expr) : option nat :=
  match e with
  | Const m O => Some (N.to_nat m)
  | _ => None
  end.

Definition apply_func (f : func) (v : R) : R :=
  match f with
  | Fsqrt => sqrt v
  | Fcos => cos v
  | Fexp => exp v
  | Fsin => sin v
  end.

Fixpoint eval (e : expr) (x y z : R) : R :=
  match e with
  | Const m d => const_val m d
  | Var X => x
  | Var Y => y
  | Var Z => z
  | Neg e1 => - eval e1 x y z
  | Bin Add l r => eval l x y z + eval r x y z
  | Bin Sub l r => eval l x y z - eval r x y z
  | Bin Mul l r => eval l x y z * eval r x y z
  | Bin Div l r => eval l x y z / eval r x y z
  | Bin Pow l r =>
      match nat_exponent r with
      | Some n => eval l x y z ^ n
      | None => Rpower (eval l x y z) (eval r x y z)
      end
  | App f a => apply_func f (eval a x y z)
  end.

End Lepton.

(* ===================================================================== *)
(** * Python values, errors and call binding *)
(* ===================================================================== *)

Module Py.

Inductive pyerr :=
| TypeError
| ValueError
| ZeroDivisionError
| AttributeError
| OpenMMException.

Inductive result (A : Type) :=
| Ok (a : A)
| Err (e : pyerr).
Arguments Ok {A} a.
Arguments Err {A} e.

Definition bind {A B} (r : result A) (k : A -> result B) : result B :=
  match r with
  | Ok a => k a
  | Err e => Err e
  end.

(** A rendering target: the [plt] module, which draws on the
    process-wide current axes, or an axes object of its own. *)
Inductive target :=
| Plt
| Axes (id : nat).

Inductive pyval :=
| PNone
| PInt (n : Z)
| PFloat (v : R)
| PStr (s : string)
| PTarget (t : target).

(** The arguments of a call [f(v1, ..., vk, name1=w1, ...)]. *)
Record call := Call {
  positional : list pyval;
  keywords : gmap string pyval
}.

(** Binding of a call to [def f(p1=d1, ..., pn=dn, **kwargs)]:
    positional values fill the parameters from the left; a keyword that
    names a parameter fills it (twice filled is a [TypeError]); every
    other keyword lands in [kwargs]; too many positionals is a
    [TypeError]. *)
Fixpoint bind_params (params : list (string * pyval)) (pos : list pyval)
    (kw : gmap string pyval) : result (list pyval * gmap string pyval) :=
  match params with
  | [] =>
      match pos with
      | [] => Ok ([], kw)
      | _ :: _ => Err TypeError
      end
  | (name, dflt) :: params' =>
      match pos with
      | v :: pos' =>
          match kw !! name with
          | Some _ => Err TypeError
          | None =>
              bind (bind_params params' pos' kw)
                   (fun '(vs, rest) => Ok (v :: vs, rest))
          end
      | [] =>
          let v := default dflt (kw !! name) in
          bind (bind_params params' [] (delete name kw))
               (fun '(vs, rest) => Ok (v :: vs, rest))
      end
  end.

Definition as_real (v : pyval) : option R :=
  match v with
  | PFloat r => Some r
  | PInt n => Some (IZR n)
  | _ => None
  end.

(** [str(i)] for a natural number. *)
Definition str (i : nat) : string := NilEmpty.string_of_uint (Nat.to_uint i).

End Py.

(* ===================================================================== *)
(** * The numpy operations the notebook uses *)
(* ===================================================================== *)

Module Np.

Definition vec3 : Type := R * R * R.

Definition Rleb (a b : R) : bool := if Rle_dec a b then true else false.

(** [np.isclose(a, b)] with the default tolerances:
    [|a - b| <= atol + rtol * |b|]. *)
Definition rtol : R := 1e-5.
Definition atol : R := 1e-8.
Definition isclose (a b : R) : bool := Rleb (Rabs (a - b)) (atol + rtol * Rabs b).

(** [np.all] of a boolean array. *)
Definition all (m : list bool) : bool := forallb (fun b => b) m.

(** A boolean used as a number. *)
Definition b2r (b : bool) : R := if b then 1 else 0.

(** [np.sum(p**2, axis=1)] of an array of shape (n,3). *)
Definition sum_sq (p : vec3) : R := let '(x, y, z) := p in x ^ 2 + y ^ 2 + z ^ 2.
Definition sum_sq_rows (p : list vec3) : list R := map sum_sq p.

(** The random source: [g k i] is row [i] of the array returned by the
    [k]-th call of [np.random.rand(n, 3)]. *)
Definition rng : Type := nat -> nat -> vec3.

Definition in01 (u : R) : Prop := 0 <= u < 1.
Definition uniform01 (g : rng) : Prop :=
  forall k i, let '(a, b, c) := g k i in in01 a /\ in01 b /\ in01 c.

(** [np.random.rand(n, 3)]: a negative dimension is a [ValueError]. *)
Definition random_rand (g : rng) (k : nat) (n : Z) : Py.result (list vec3) :=
  if (n <? 0)%Z then Py.Err Py.ValueError
  else Py.Ok (map (g k) (seq 0 (Z.to_nat n))).

(** [math.ceil]: the least integer not below [v]. *)
Definition ceil (v : R) : Z := (1 - up (- v))%Z.

(** Division of doubles.  The quotient is the exact one rounded to a
    double; which double is a parameter of the model, known only to lie
    within the relative error 2^-53 of the exact quotient (overflow and
    underflow apart). *)
Definition eps : R := / 2 ^ 53.

Record rounding := Rounding {
  rnd : R -> R;
  rnd_error : forall x, Rabs (rnd x - x) <= eps * Rabs x
}.

Definition fdiv (f : rounding) (a b : R) : R := rnd f (a / b).

(** The number of points of the slice [lo : hi : step]:
    [int(math.ceil((stop - start) / (step * 1.0)))]. *)
Definition mgrid_size (f : rounding) (lo hi step : R) : Z :=
  ceil (fdiv f (hi - lo) step).

(** The points [i * step + lo] of one axis. *)
Definition mgrid_axis (lo step : R) (size : nat) : list R :=
  map (fun i => INR i * step + lo) (seq 0 size).

(** [np.mgrid[a:b:s, c:d:s]]: [xx[i][j] = xs[i]], [yy[i][j] = ys[j]].
    A zero step is a division by zero, a negative size a [ValueError]. *)
Definition mgrid (f : rounding) (minx maxx miny maxy step : R)
  : Py.result (list (list R) * list (list R)) :=
  if Req_dec_T step 0 then Py.Err Py.ZeroDivisionError
  else
    let nx := mgrid_size f minx maxx step in
    let ny := mgrid_size f miny maxy step in
    if ((nx <? 0) || (ny <? 0))%Z then Py.Err Py.ValueError
    else
      let xs := mgrid_axis minx step (Z.to_nat nx) in
      let ys := mgrid_axis miny step (Z.to_nat ny) in
      Py.Ok (map (fun x => map (fun _ => x) ys) xs, map (fun _ => ys) xs).

End Np.

(* ===================================================================== *)
(** * class TwoDFunnel *)
(* ===================================================================== *)

Module TwoDFunnel.
Import Py Np.

(** [__init__]: the string handed to [CustomExternalForce]. *)
Definition expression : string :=
  "2*cos(2*sqrt(x^2+y^2)) - 8*exp(-(x^2+y^2)) + 0.2*((x/8)^2+(y/8)^2)^3 + 1000.0 * z^2".

(** What the evaluator computes for a particle at [(x, y, z)]. *)
Definition energy (x y z : R) : option R :=
  option_map (fun e => Lepton.eval e x y z) (Lepton.parse expression).

(** The summands of a sum, but the last one. *)
Definition without_last_term (e : Lepton.expr) : option Lepton.expr :=
  match e with
  | Lepton.Bin Lepton.Add l _ => Some l
  | _ => None
  end.

(** The expression without its last summand, evaluated at [(x, y, z)]. *)
Definition in_plane_energy (x y z : R) : option R :=
  match Lepton.parse expression with
  | Some e => option_map (fun e' => Lepton.eval e' x y z) (without_last_term e)
  | None => None
  end.

(** [potential(cls, x, y)] at one point. *)
Definition potential (x y : R) : R :=
  2 * cos (2 * sqrt (x ^ 2 + y ^ 2)) - 8 * exp (- (x ^ 2 + y ^ 2))
  + 0.2 * ((x / 8) ^ 2 + (y / 8) ^ 2) ^ 3.

(** [potential] over arrays of one shape. *)
Definition potential_grid (xx yy : list (list R)) : list (list R) :=
  zip_with (zip_with potential) xx yy.

Inductive render_event :=
| Contourf (on : target) (xx yy V : list (list R)) (levels : nat)
           (kwargs : gmap string pyval)
| Colorbar (on : target).

Definition plot_params : list (string * pyval) :=
  [("ax"%string, PNone); ("minx"%string, PFloat (-11.0)); ("maxx"%string, PFloat 11.0);
   ("miny"%string, PFloat (-11.0)); ("maxy"%string, PFloat 11.0)].

(** The body of [plot] once its parameters are bound. *)
Definition plot_body (f : rounding) (ax : pyval) (minx maxx miny maxy : R)
    (kwargs : gmap string pyval) : result (list render_event) :=
  let grid_res := 1000 in
  let grid_width := fdiv f (Rmax (maxx - minx) (maxy - miny)) grid_res in
  (* ax = kwargs.pop('ax', None) *)
  let ax := default PNone (kwargs !! "ax"%string) in
  let kwargs := delete "ax"%string kwargs in
  bind (mgrid f minx maxx miny maxy grid_width) (fun '(xx, yy) =>
    let V := potential_grid xx yy in
    let ax := match ax with PNone => PTarget Plt | _ => ax end in
    match ax with
    | PTarget t =>
        match kwargs !! "nchunk"%string with
        | Some _ => Err TypeError
        | None =>
            Ok [Contourf t xx yy V 8 (<["nchunk"%string := PInt 3]> kwargs);
                Colorbar Plt]
        end
    | _ => Err AttributeError
    end).

(** [plot(cls, ax=None, minx=-11.0, maxx=11.0, miny=-11.0, maxy=11.0,
    **kwargs)]. *)
Definition plot (f : rounding) (c : call) : result (list render_event) :=
  match bind_params plot_params (positional c) (keywords c) with
  | Err e => Err e
  | Ok ([ax; minx; maxx; miny; maxy], kwargs) =>
      match as_real minx, as_real maxx, as_real miny, as_real maxy with
      | Some x0, Some x1, Some y0, Some y1 => plot_body f ax x0 x1 y0 y1 kwargs
      | _, _, _, _ => Err TypeError
      end
  | Ok _ => Err TypeError
  end.

End TwoDFunnel.

(** The tree the evaluator reads from [TwoDFunnel.expression], named by
    summand. *)
Module FunnelTree.
Import Lepton.

Definition sq (e : expr) : expr := Bin Pow e (Const 2 0).
Definition rho2 : expr := Bin Add (sq (Var X)) (sq (Var Y)).
Definition ring_term : expr :=
  Bin Mul (Const 2 0) (App Fcos (Bin Mul (Const 2 0) (App Fsqrt rho2))).
Definition well_term : expr := Bin Mul (Const 8 0) (App Fexp (Neg rho2)).
Definition wall_term : expr :=
  Bin Mul (Const 2 1)
    (Bin Pow (Bin Add (sq (Bin Div (Var X) (Const 8 0)))
                      (sq (Bin Div (Var Y) (Const 8 0))))
             (Const 3 0)).
Definition z_term : expr := Bin Mul (Const 10000 1) (sq (Var Z)).
Definition funnel_tree : expr :=
  Bin Add (Bin Add (Bin Sub ring_term well_term) wall_term) z_term.

End FunnelTree.

(** The energy surface as the specification writes it. *)
Definition spec_E (x y z : R) : R :=
  2 * cos (2 * sqrt (x ^ 2 + y ^ 2))
  - 8 * exp (- (x ^ 2 + y ^ 2))
  + 0.2 * ((x / 8) ^ 2 + (y / 8) ^ 2) ^ 3
  + 1000.0 * z ^ 2.

(** The in-plane energy in polar form, at radius [rho]. *)
Definition spec_polar (rho : R) : R :=
  2 * cos (2 * rho) - 8 * exp (- rho ^ 2) + 0.2 * (rho ^ 2 / 64) ^ 3.

(* ===================================================================== *)
(** * The notebook cells: parameters, starting positions, system, run *)
(* ===================================================================== *)

Module Notebook.
Import Py Np.

(** The ensemble parameters, as numbers in the units the notebook names
    (amu, kelvin, 1/picosecond, femtosecond). *)
Record Config := {
  nParticles : Z;
  mass : R;
  temperature : R;
  friction : R;
  timestep : R
}.

Definition config : Config :=
  {| nParticles := 10; mass := 1000; temperature := 750;
     friction := 100; timestep := 10.0 |}.

(** [r = np.array([10] * nParticles)] *)
Definition r (n : Z) : list R := repeat 10 (Z.to_nat n).

(** One row of [rand * np.array([20, 20, 0]) + np.array([-10, -10, 0])]. *)
Definition place (u : vec3) : vec3 :=
  let '(a, b, c) := u in (a * 20 + -10, b * 20 + -10, c * 0 + 0).

(** The candidate positions of the [k]-th draw, for [n] rows. *)
Definition candidates (g : rng) (k n : nat) : list vec3 :=
  map place (map (g k) (seq 0 n)).

(** [(np.random.rand(nParticles, 3) * np.array([20, 20, 0]))
     + np.array([-10, -10, 0])] *)
Definition draw (g : rng) (k : nat) (n : Z) : result (list vec3) :=
  bind (random_rand g k n) (fun u => Ok (map place u)).

(** [mask = np.isclose(np.sum(startingPositions**2, axis=1), r**2)] *)
Definition closeness_mask (n : Z) (startingPositions : list vec3) : list bool :=
  zip_with isclose (sum_sq_rows startingPositions) (map (fun ri => ri ^ 2) (r n)).

(** One row of [startingPositions * ~mask + prev_startingPositions * mask]
    with the mask reshaped to one column. *)
Definition blend (m : bool) (new prev : vec3) : vec3 :=
  let '(a, b, c) := new in
  let '(a', b', c') := prev in
  (a * b2r (negb m) + a' * b2r m,
   b * b2r (negb m) + b' * b2r m,
   c * b2r (negb m) + c' * b2r m).

Definition masked_overwrite (mask : list bool) (new prev : list vec3) : list vec3 :=
  zip_with (fun m np => blend m (fst np) (snd np)) mask (zip new prev).

Inductive loop_outcome :=
| Accepted (startingPositions : list vec3) (retries : nat)
| StillLooping.

(** The [while True] loop.  [k] counts the retries made so far, [fuel]
    bounds the retries still allowed; the exit test comes first, as in
    the source, so [fuel = 0] still lets an accepted batch leave. *)
Fixpoint rejection_loop (g : rng) (n : Z) (fuel k : nat)
    (startingPositions : list vec3) : result loop_outcome :=
  let mask := closeness_mask n startingPositions in
  if all mask then Ok (Accepted startingPositions k)
  else
    match fuel with
    | O => Ok StillLooping
    | S fuel' =>
        let prev_startingPositions := startingPositions in
        bind (draw g (S k) n) (fun new =>
          rejection_loop g n fuel' (S k)
            (masked_overwrite mask new prev_startingPositions))
    end.

(** The initial draw followed by the loop. *)
Definition startingPositions (g : rng) (n : Z) (fuel : nat) : result loop_outcome :=
  bind (draw g 0 n) (fun p0 => rejection_loop g n fuel 0 p0).

(** The array held at the head of the loop after [j] retries, were the
    loop never left. *)
Fixpoint positions_after (g : rng) (n : nat) (j : nat) : list vec3 :=
  match j with
  | O => candidates g 0 n
  | S j' =>
      let prev := positions_after g n j' in
      masked_overwrite (closeness_mask (Z.of_nat n) prev) (candidates g j n) prev
  end.

(** The acceptance test of one row, at r = 10. *)
Definition passes (p : vec3) : bool := isclose (sum_sq p) (10 ^ 2).

(** The radius tolerance of the test at r = 10. *)
Definition radius_tolerance : R := atol + rtol * 10 ^ 2.

(** Whether the batch held after [j] retries passes as a whole. *)
Definition batch_passes (g : rng) (n j : nat) : bool :=
  all (closeness_mask (Z.of_nat n) (positions_after g n j)).

(** The calls made to the simulation engine. *)
Inductive engine_call :=
| NewTwoDFunnel (expression : string)
| NewSystem
| NewTopology
| TopologyAddChain (id : string)
| TopologyAddResidue (name : string)
| ElementGetBySymbol (symbol : string)
| SystemAddParticle (mass : R)
| ForceAddParticle (ind : nat) (parameters : list R)
| TopologyAddAtom (name : string) (ind : nat)
| SystemAddForce
| NewLangevinMiddleIntegrator (temperature friction timestep : R)
| NewSimulation
| SetPositions (positions : list vec3)
| SetVelocitiesToTemperature (temperature : R).

(** Cell 6 after the starting positions: force, system, topology and one
    particle per index ([addParticle] returns the index of the particle
    it adds). *)
Definition build_system (cfg : Config) : list engine_call :=
  [NewTwoDFunnel TwoDFunnel.expression; NewSystem; NewTopology;
   TopologyAddChain "A"; TopologyAddResidue "1"; ElementGetBySymbol "H";
   NewTwoDFunnel TwoDFunnel.expression]
  ++ flat_map (fun i =>
       [SystemAddParticle (mass cfg); ForceAddParticle i [];
        TopologyAddAtom (String.append "X" (str i)) i])
     (seq 0 (Z.to_nat (nParticles cfg)))
  ++ [SystemAddForce].

(** Cell 8. *)
Definition build_simulation (cfg : Config) (pos : list vec3) : list engine_call :=
  [NewLangevinMiddleIntegrator (temperature cfg) (friction cfg) (timestep cfg);
   NewSimulation; SetPositions pos; SetVelocitiesToTemperature (temperature cfg)].

(** The engine's own checks: given the calls already made, whether the
    next call raises.  The engine is external; its checks are a
    parameter of the model. *)
Definition engine_check : Type := list engine_call -> engine_call -> option pyerr.

(** How cells 6 and 8 end: an error of the notebook's own code or of
    numpy, after the calls listed; an error the engine raises at the call
    [at], after the calls [done] returned; the rejection loop still
    running; or every call made. *)
Inductive outcome :=
| Raised (e : pyerr) (calls : list engine_call)
| EngineRaised (e : pyerr) (done : list engine_call) (at_call : engine_call)
| Unfinished
| Built (calls : list engine_call).

(** The calls [todo] are made in order after the calls [done]; the first
    one the engine refuses ends the run, nothing catches the error. *)
Fixpoint issue (eng : engine_check) (done todo : list engine_call) : outcome :=
  match todo with
  | [] => Built done
  | c :: todo' =>
      match eng done c with
      | Some e => EngineRaised e done c
      | None => issue eng (done ++ [c]) todo'
      end
  end.

(** Cells 6 and 8 run in order; the trace holds the engine calls made. *)
Definition setup (eng : engine_check) (cfg : Config) (g : rng) (fuel : nat)
  : outcome :=
  match startingPositions g (nParticles cfg) fuel with
  | Err e => Raised e []
  | Ok StillLooping => Unfinished
  | Ok (Accepted pos _) =>
      issue eng [] (build_system cfg ++ build_simulation cfg pos)
  end.

(** The engine at the boundary: a state, one integrator step (the
    thermostat's noise is part of the state) and the state accessor. *)
Record Engine := {
  context : Type;
  step1 : context -> context;
  getPositions : context -> list vec3
}.

(** [integrator.step(steps)] *)
Definition integrator_step (E : Engine) (steps : nat) (c : context E) : context E :=
  Nat.iter steps (step1 E) c.

Inductive run_event :=
| Scatter (xs ys : list R)
| IntegratorStep (steps : nat)
| ShowFigure.

Definition col0 (p : vec3) : R := fst (fst p).
Definition col1 (p : vec3) : R := snd (fst p).

(** [for i in range(iterations)]: read the positions, scatter their
    first two columns, then step the integrator. *)
Fixpoint sampling_loop (E : Engine) (iterations steps : nat) (c : context E)
  : list run_event * context E :=
  match iterations with
  | O => ([], c)
  | S m =>
      let x := getPositions E c in
      let ev := Scatter (map col0 x) (map col1 x) in
      let c' := integrator_step E steps c in
      let '(evs, c'') := sampling_loop E m steps c' in
      (ev :: IntegratorStep steps :: evs, c'')
  end.

(** The engine as cell 10 meets it, where a call may raise: the state
    accessor and [integrator.step(steps)] return a value or an error. *)
Record RaisingEngine := {
  rcontext : Type;
  try_step : nat -> rcontext -> result rcontext;
  try_getPositions : rcontext -> result (list vec3)
}.

(** An engine whose calls always return. *)
Definition reliable (E : Engine) : RaisingEngine :=
  {| rcontext := context E;
     try_step := fun steps c => Ok (integrator_step E steps c);
     try_getPositions := fun c => Ok (getPositions E c) |}.

(** How the loop ends: after all iterations, or at the first call that
    raises, with the events emitted until then. *)
Inductive run_outcome (C : Type) :=
| RunDone (evs : list run_event) (c : C)
| RunAborted (e : pyerr) (evs : list run_event).
Arguments RunDone {C} evs c.
Arguments RunAborted {C} e evs.

(** The events of one completed iteration that read the positions [x]. *)
Definition iteration_of (steps : nat) (x : list vec3) : list run_event :=
  [Scatter (map col0 x) (map col1 x); IntegratorStep steps].

(** The loop of cell 10 on such an engine: nothing catches an error, the
    first one ends the loop. *)
Fixpoint try_sampling_loop (E : RaisingEngine) (iterations steps : nat)
    (c : rcontext E) : run_outcome (rcontext E) :=
  match iterations with
  | O => RunDone [] c
  | S m =>
      match try_getPositions E c with
      | Err e => RunAborted e []
      | Ok x =>
          match try_step E steps c with
          | Err e => RunAborted e [Scatter (map col0 x) (map col1 x)]
          | Ok c' =>
              match try_sampling_loop E m steps c' with
              | RunDone evs c'' => RunDone (iteration_of steps x ++ evs) c''
              | RunAborted e evs => RunAborted e (iteration_of steps x ++ evs)
              end
          end
      end
  end.

(** Cell 10: the contour plot, the loop, [plt.show()]; [plt.gca()] is
    the axes object [Axes 0]. *)
Definition run (f : rounding) (E : RaisingEngine) (c : rcontext E)
  : list TwoDFunnel.render_event * run_outcome (rcontext E) :=
  match TwoDFunnel.plot f (Call [] {[ "ax"%string := PTarget (Axes 0) ]}) with
  | Err e => ([], RunAborted e [])
  | Ok rs =>
      match try_sampling_loop E 1000 250 c with
      | RunDone evs c' => (rs, RunDone (evs ++ [ShowFigure]) c')
      | RunAborted e evs => (rs, RunAborted e evs)
      end
  end.

(** The events of iteration [k] of a run from [c]: the snapshot of the
    positions after [k * steps] steps, then the stepping call. *)
Definition iteration_events (E : Engine) (steps : nat) (c : context E) (k : nat)
  : list run_event :=
  let x := getPositions E (integrator_step E (k * steps) c) in
  [Scatter (map col0 x) (map col1 x); IntegratorStep steps].

(** The snapshots of a trace, in order. *)
Definition snapshots (evs : list run_event) : list (list R * list R) :=
  flat_map (fun e => match e with Scatter xs ys => [(xs, ys)] | _ => [] end) evs.

End Notebook.

(* ===================================================================== *)
(** * Reading a trace of engine calls *)
(* ===================================================================== *)

Module Trace.
Import Np Notebook.

(** The masses of the particles added to the system, in order. *)
Definition system_masses (calls : list engine_call) : list R :=
  flat_map (fun c => match c with SystemAddParticle m => [m] | _ => [] end) calls.

(** The particles added to the force: index and per-particle parameters. *)
Definition force_particles (calls : list engine_call) : list (nat * list R) :=
  flat_map (fun c => match c with ForceAddParticle i ps => [(i, ps)] | _ => [] end)
           calls.

(** The atoms added to the topology: name and particle index. *)
Definition atoms (calls : list engine_call) : list (string * nat) :=
  flat_map (fun c => match c with TopologyAddAtom name i => [(name, i)] | _ => [] end)
           calls.

(** The arrays passed to [setPositions]. *)
Definition positions_set (calls : list engine_call) : list (list vec3) :=
  flat_map (fun c => match c with SetPositions p => [p] | _ => [] end) calls.

(** Whether a particle has been added to the system. *)
Definition has_particle (calls : list engine_call) : bool :=
  existsb (fun c => match c with SystemAddParticle _ => true | _ => false end) calls.

(** The expressions of the forces constructed. *)
Definition forces_made (calls : list engine_call) : list string :=
  flat_map (fun c => match c with NewTwoDFunnel e => [e] | _ => [] end) calls.

End Trace.

(* ===================================================================== *)
(** * The specification's reading of the run *)
(* ===================================================================== *)

Module Spec.
Import Py Np Notebook.


(** The per-sample contract in the specification's words: the steps
    first, then the read-back and the snapshot. *)
Fixpoint sampling_loop (E : Engine) (iterations steps : nat) (c : context E)
  : list run_event * context E :=
  match iterations with
  | O => ([], c)
  | S m =>
      let c' := integrator_step E steps c in
      let x := getPositions E c' in
      let '(evs, c'') := sampling_loop E m steps c' in
      (IntegratorStep steps :: Scatter (map col0 x) (map col1 x) :: evs, c'')
  end.

End Spec.

(* ===================================================================== *)
(** * Sample inputs *)
(* ===================================================================== *)

Module Samples.
Import Py Np Notebook.

(** Every draw is (1/2, 1/2, 1/2): every proposal is the centre. *)
Definition stuck_rng : rng := fun _ _ => (1 / 2, 1 / 2, 1 / 2).

(** First draw: row 0 lands on the circle at (-10, 0), the other rows
    at the centre; every later draw lands on the circle at (0, -10). *)
Definition retry_rng : rng := fun k i =>
  match k, i with
  | O, O => (0, 1 / 2, 0)
  | O, _ => (1 / 2, 1 / 2, 0)
  | _, _ => (1 / 2, 0, 0)
  end.

(** The batch of two rows after the first draw of [retry_rng]. *)
Definition first_batch : list vec3 :=
  [place (0, 1 / 2, 0); place (1 / 2, 1 / 2, 0)].

(** Every draw lands every row on the circle, at (-10, 0). *)
Definition circle_rng : rng := fun _ _ => (0, 1 / 2, 0).

(** One particle of negative mass, stepped with a zero timestep. *)
Definition bad_config : Config :=
  {| nParticles := 1; mass := -1; temperature := 750;
     friction := 100; timestep := 0 |}.

(** No particle at all. *)
Definition empty_config : Config :=
  {| nParticles := 0; mass := 1000; temperature := 750;
     friction := 100; timestep := 10.0 |}.


(** An engine that makes one check: a [Simulation] cannot be created
    for a system to which no particle was added. *)
Definition rejects_empty_system : engine_check := fun done c =>
  match c with
  | NewSimulation =>
      if Trace.has_particle done then None else Some OpenMMException
  | _ => None
  end.

(** Divisions that happen to be exact. *)
Definition exact_rounding : rounding :=
  {| rnd := fun x => x;
     rnd_error := fun x =>
       ltac:(cbv beta; unfold Rminus; rewrite Rplus_opp_r, Rabs_R0;
             apply Rmult_le_pos;
             [left; apply Rinv_0_lt_compat, pow_lt; lra | apply Rabs_pos]) |}.

(** Divisions that are exact but for 22/1000, rounded down by the
    relative error 2^-53: the grid step of the default window falls
    just short of 0.022. *)
Definition short_step_rounding : rounding :=
  {| rnd := fun x => if Req_dec_T x (22 / 1000) then x * (1 - eps) else x;
     rnd_error := fun x =>
       ltac:(assert (0 < eps)
               by (apply Rinv_0_lt_compat, pow_lt; lra);
             cbv beta;
             destruct (Req_dec_T x (22 / 1000));
             [ replace (x * (1 - eps) - x) with (- (eps * x)) by ring;
               rewrite Rabs_Ropp, Rabs_mult, (Rabs_pos_eq eps) by lra; lra
             | unfold Rminus; rewrite Rplus_opp_r, Rabs_R0;
               apply Rmult_le_pos; [lra | apply Rabs_pos] ]) |}.

(** An engine whose state counts the steps taken; its one particle
    sits at (steps taken, 0, 0). *)
Definition counter_engine : Engine :=
  {| context := nat; step1 := S; getPositions := fun c => [(INR c, 0, 0)] |}.

(** The same engine, but its integrator reports a failure once 500
    steps have been taken. *)
Definition diverging_engine : RaisingEngine :=
  {| rcontext := nat;
     try_step := fun steps c =>
       if (500 <=? c)%nat then Err OpenMMException else Ok (steps + c)%nat;
     try_getPositions := fun c => Ok [(INR c, 0, 0)] |}.

End Samples.

(* ===================================================================== *)
(** * Theorems: the potential surface *)
(* ===================================================================== *)

Section PotentialSurface.
Import Lepton FunnelTree.

Lemma parse_expression : parse TwoDFunnel.expression = Some funnel_tree.
Proof. vm_compute. reflexivity. Qed.

Lemma const_val_whole m : const_val m 0 = IZR (Z.of_N m).
Proof. unfold const_val. simpl. field. Qed.

Lemma const_val_0_2 : const_val 2 1 = 0.2.
Proof. unfold const_val. simpl. lra. Qed.

Lemma const_val_1000_0 : const_val 10000 1 = 1000.0.
Proof. unfold const_val. simpl. lra. Qed.

Lemma eval_funnel_tree x y z : eval funnel_tree x y z = spec_E x y z.
Proof.
  unfold funnel_tree, ring_term, well_term, wall_term, z_term, rho2, sq, spec_E.
  cbn [eval nat_exponent apply_func N.to_nat Pos.to_nat Pos.iter_op Nat.add].
  rewrite !const_val_whole, const_val_0_2, const_val_1000_0.
  reflexivity.
Qed.

Lemma eval_in_plane x y z :
  eval (Bin Add (Bin Sub ring_term well_term) wall_term) x y z
  = TwoDFunnel.potential x y.
Proof.
  unfold ring_term, well_term, wall_term, rho2, sq, TwoDFunnel.potential.
  cbn [eval nat_exponent apply_func N.to_nat Pos.to_nat Pos.iter_op Nat.add].
  rewrite !const_val_whole, const_val_0_2.
  reflexivity.
Qed.

Lemma radius_sq_nonneg x y : 0 <= x ^ 2 + y ^ 2.
Proof. nra. Qed.

Lemma potential_polar_form x y :
  TwoDFunnel.potential x y = spec_polar (sqrt (x ^ 2 + y ^ 2)).
Proof.
  unfold TwoDFunnel.potential, spec_polar.
  assert (Hs : sqrt (x ^ 2 + y ^ 2) ^ 2 = x ^ 2 + y ^ 2).
  { rewrite <- Rsqr_pow2. apply Rsqr_sqrt, radius_sq_nonneg. }
  rewrite Hs.
  replace ((x / 8) ^ 2 + (y / 8) ^ 2) with ((x ^ 2 + y ^ 2) / 64) by field.
  reflexivity.
Qed.

Lemma energy_closed_form x y z : TwoDFunnel.energy x y z = Some (spec_E x y z).
Proof.
  unfold TwoDFunnel.energy.
  rewrite parse_expression. cbn [option_map].
  now rewrite eval_funnel_tree.
Qed.

(** C1: the string given to the force evaluator parses, and at every
    (x, y, z) it denotes the closed-form energy
    2*cos(2*sqrt(x^2+y^2)) - 8*exp(-(x^2+y^2)) + 0.2*((x/8)^2+(y/8)^2)^3
    + 1000.0*z^2. *)
Theorem expression_denotes_E :
  forall x y z : R, TwoDFunnel.energy x y z = Some (spec_E x y z).
Proof.
  intros x y z. apply energy_closed_form.
Qed.

(** C4: [potential(x, y)] is the in-plane part of the force-field
    expression (the expression without its last summand, whatever z),
    which is the full expression, and the closed form E, at z = 0. *)
Theorem potential_is_in_plane_energy :
  forall x y : R,
    (forall z, TwoDFunnel.in_plane_energy x y z = Some (TwoDFunnel.potential x y))
    /\ TwoDFunnel.energy x y 0 = Some (TwoDFunnel.potential x y)
    /\ TwoDFunnel.potential x y = spec_E x y 0.
Proof.
  intros x y.
  assert (HE : TwoDFunnel.potential x y = spec_E x y 0).
  { unfold TwoDFunnel.potential, spec_E. lra. }
  split; [| split].
  - intros z. unfold TwoDFunnel.in_plane_energy.
    rewrite parse_expression. unfold funnel_tree.
    cbn [TwoDFunnel.without_last_term option_map].
    now rewrite eval_in_plane.
  - rewrite energy_closed_form. now rewrite HE.
  - exact HE.
Qed.

Lemma potential_of_radius x y x' y' :
  sqrt (x ^ 2 + y ^ 2) = sqrt (x' ^ 2 + y' ^ 2) ->
  TwoDFunnel.potential x y = TwoDFunnel.potential x' y'.
Proof.
  intros H. rewrite (potential_polar_form x y), (potential_polar_form x' y').
  now rewrite H.
Qed.

(** C5: [potential] is radially symmetric: potential(x, y) equals
    potential(-x, -y); two points at the same radius sqrt(x^2+y^2) have
    the same potential; and the value is the polar form at that radius,
    whatever the angle. *)
Theorem potential_radially_symmetric :
  (forall x y : R, TwoDFunnel.potential x y = TwoDFunnel.potential (- x) (- y))
  /\ (forall x y x' y' : R,
        sqrt (x ^ 2 + y ^ 2) = sqrt (x' ^ 2 + y' ^ 2) ->
        TwoDFunnel.potential x y = TwoDFunnel.potential x' y')
  /\ (forall rho theta : R,
        0 <= rho ->
        TwoDFunnel.potential (rho * cos theta) (rho * sin theta) = spec_polar rho).
Proof.
  split; [| split].
  - intros x y. apply potential_of_radius. f_equal. ring.
  - exact potential_of_radius.
  - intros rho theta Hrho. rewrite potential_polar_form. f_equal.
    replace ((rho * cos theta) ^ 2 + (rho * sin theta) ^ 2)
      with (rho ^ 2 * ((sin theta) ^ 2 + (cos theta) ^ 2)) by ring.
    rewrite <- !Rsqr_pow2, sin2_cos2, Rmult_1_r.
    now apply sqrt_Rsqr.
Qed.

Lemma potential_radially_symmetric_witness :
  sqrt (3 ^ 2 + 4 ^ 2) = sqrt (5 ^ 2 + 0 ^ 2)
  /\ 0 <= 2
  /\ TwoDFunnel.potential 3 4 = TwoDFunnel.potential 5 0
  /\ TwoDFunnel.potential (2 * cos 1) (2 * sin 1) = spec_polar 2.
Proof.
  assert (H : sqrt (3 ^ 2 + 4 ^ 2) = sqrt (5 ^ 2 + 0 ^ 2)) by (f_equal; lra).
  assert (H2 : 0 <= 2) by lra.
  split; [exact H |]. split; [exact H2 |]. split.
  - exact (proj1 (proj2 potential_radially_symmetric) 3 4 5 0 H).
  - exact (proj2 (proj2 potential_radially_symmetric) 2 1 H2).
Defined.

End PotentialSurface.

(* ===================================================================== *)
(** * Theorems: the rendering target of [plot] *)
(* ===================================================================== *)

Section PlotTarget.
Import Py Np TwoDFunnel.

(** Binding only ever removes keywords. *)
Lemma bind_params_rest_sub params : forall pos (kw : gmap string pyval) vs rest,
  bind_params params pos kw = Ok (vs, rest) ->
  forall k, kw !! k = None -> rest !! k = None.
Proof.
  induction params as [| [name dflt] params IH]; intros pos kw vs rest H k Hk.
  - destruct pos; simpl in H; [| discriminate]. now inversion H; subst.
  - simpl in H. destruct pos as [| v pos'].
    + destruct (bind_params params [] (delete name kw)) as [[vs' rest'] |] eqn:Hb;
        simpl in H; [| discriminate].
      inversion H; subst. eapply IH; [exact Hb |].
      rewrite lookup_delete. case_decide; [reflexivity | exact Hk].
    + destruct (kw !! name) eqn:Hn; [discriminate |].
      destruct (bind_params params pos' kw) as [[vs' rest'] |] eqn:Hb;
        simpl in H; [| discriminate].
      inversion H; subst. eapply IH; eauto.
Qed.

(** A keyword that names a parameter never reaches [kwargs]. *)
Lemma bind_params_consumes params : forall pos (kw : gmap string pyval) vs rest,
  bind_params params pos kw = Ok (vs, rest) ->
  forall name, In name (map fst params) -> rest !! name = None.
Proof.
  induction params as [| [name dflt] params IH]; intros pos kw vs rest H k Hin.
  - destruct Hin.
  - simpl in H. destruct pos as [| v pos'].
    + destruct (bind_params params [] (delete name kw)) as [[vs' rest'] |] eqn:Hb;
        simpl in H; [| discriminate].
      inversion H; subst. destruct Hin as [<- | Hin].
      * eapply bind_params_rest_sub; [exact Hb |]. apply lookup_delete_eq.
      * eapply IH; eauto.
    + destruct (kw !! name) eqn:Hn; [discriminate |].
      destruct (bind_params params pos' kw) as [[vs' rest'] |] eqn:Hb;
        simpl in H; [| discriminate].
      inversion H; subst. destruct Hin as [<- | Hin].
      * eapply bind_params_rest_sub; eauto.
      * eapply IH; eauto.
Qed.

(** Without an ["ax"] entry in [kwargs], the body draws on [plt]. *)
Lemma plot_body_on_plt f ax x0 x1 y0 y1 (kwargs : gmap string pyval) evs :
  kwargs !! "ax"%string = None ->
  plot_body f ax x0 x1 y0 y1 kwargs = Ok evs ->
  exists xx yy V kw, evs = [Contourf Plt xx yy V 8 kw; Colorbar Plt].
Proof.
  intros Hax. unfold plot_body. rewrite Hax. cbn [default].
  destruct (mgrid _ _ _ _ _ _) as [[xx yy] |]; [| discriminate].
  cbn [bind].
  destruct (_ !! "nchunk"%string); [discriminate |].
  intros H. inversion H; subst. eauto.
Qed.

Lemma plot_always_on_plt f (c : call) evs :
  plot f c = Ok evs ->
  exists xx yy V kw, evs = [Contourf Plt xx yy V 8 kw; Colorbar Plt].
Proof.
  unfold plot.
  destruct (bind_params plot_params (positional c) (keywords c))
    as [[vs kwargs] |] eqn:Hb; [| discriminate].
  assert (Hax : kwargs !! "ax"%string = None).
  { eapply bind_params_consumes; [exact Hb |]. simpl. auto. }
  destruct vs as [| ax [| minx [| maxx [| miny [| maxy [| ? ?]]]]]]; try discriminate.
  destruct (as_real minx), (as_real maxx), (as_real miny), (as_real maxy);
    try discriminate.
  now apply plot_body_on_plt.
Qed.

Lemma eps_pos : 0 < eps.
Proof. unfold eps. apply Rinv_0_lt_compat, pow_lt. lra. Qed.

Lemma eps_small : eps < / 4000.
Proof.
  unfold eps. apply Rinv_lt_contravar; [| simpl; lra].
  apply Rmult_lt_0_compat; [lra | apply pow_lt; lra].
Qed.

(** A rounded non-negative value stays within the relative error. *)
Lemma rnd_within (f : rounding) x :
  0 <= x -> x * (1 - eps) <= rnd f x <= x * (1 + eps).
Proof.
  intros Hx. assert (H := rnd_error f x).
  rewrite (Rabs_pos_eq x) in H by exact Hx.
  unfold Rabs in H. destruct (Rcase_abs (rnd f x - x)); lra.
Qed.

Lemma rnd_pos (f : rounding) x : 0 < x -> 0 < rnd f x.
Proof.
  intros Hx. destruct (rnd_within f x) as [Hl _]; [lra |].
  assert (He := eps_small).
  assert (0 < x * (1 - eps)) by (apply Rmult_lt_0_compat; lra). lra.
Qed.

Lemma rnd_nonneg (f : rounding) x : 0 <= x -> 0 <= rnd f x.
Proof.
  intros Hx. destruct (rnd_within f x Hx) as [Hl _].
  assert (He := eps_small).
  assert (0 <= x * (1 - eps)) by (apply Rmult_le_pos; lra). lra.
Qed.

Lemma rnd_zero (f : rounding) : rnd f 0 = 0.
Proof. destruct (rnd_within f 0) as [Hl Hu]; lra. Qed.

Lemma ceil_nonneg v : 0 <= v -> (0 <= ceil v)%Z.
Proof.
  intros Hv. unfold ceil.
  destruct (archimed (- v)) as [_ Hup].
  assert (H : IZR (up (- v)) <= IZR 1) by lra.
  apply le_IZR in H. lia.
Qed.

Lemma mgrid_size_nonneg f lo hi step :
  0 < step -> lo <= hi -> (0 <= mgrid_size f lo hi step)%Z.
Proof.
  intros Hs Hle. unfold mgrid_size, fdiv.
  apply ceil_nonneg, rnd_nonneg.
  apply Rmult_le_pos; [lra |]. left. now apply Rinv_0_lt_compat.
Qed.

Lemma mgrid_returns f x0 x1 y0 y1 step :
  0 < step -> x0 <= x1 -> y0 <= y1 ->
  exists xx yy, mgrid f x0 x1 y0 y1 step = Ok (xx, yy).
Proof.
  intros Hs Hx Hy. unfold mgrid.
  destruct (Req_dec_T step 0) as [Hz | _]; [lra |].
  assert (Hnx := mgrid_size_nonneg f x0 x1 step Hs Hx).
  assert (Hny := mgrid_size_nonneg f y0 y1 step Hs Hy).
  destruct (Z.ltb_spec (mgrid_size f x0 x1 step) 0); [lia |].
  destruct (Z.ltb_spec (mgrid_size f y0 y1 step) 0); [lia |].
  cbn [orb]. eauto.
Qed.

Lemma grid_width_pos f x0 x1 y0 y1 :
  x0 < x1 -> 0 < fdiv f (Rmax (x1 - x0) (y1 - y0)) 1000.
Proof.
  intros Hx. unfold fdiv. apply rnd_pos.
  apply Rmult_lt_0_compat; [| lra].
  apply Rlt_le_trans with (x1 - x0); [lra | apply Rmax_l].
Qed.

Lemma plot_body_returns f ax x0 x1 y0 y1 (kwargs : gmap string pyval) :
  kwargs !! "ax"%string = None ->
  kwargs !! "nchunk"%string = None ->
  x0 < x1 -> y0 <= y1 ->
  exists xx yy V kw,
    plot_body f ax x0 x1 y0 y1 kwargs = Ok [Contourf Plt xx yy V 8 kw; Colorbar Plt].
Proof.
  intros Hax Hn Hx Hy. unfold plot_body. rewrite Hax. cbn [default].
  destruct (mgrid_returns f x0 x1 y0 y1 (fdiv f (Rmax (x1 - x0) (y1 - y0)) 1000))
    as (xx & yy & ->); [now apply grid_width_pos | lra | lra |].
  cbn [bind]. rewrite lookup_delete_ne by discriminate. rewrite Hn. eauto.
Qed.

Lemma plot_keyword_ax_returns f (t : target) :
  exists xx yy V kw,
    plot f (Call [] {[ "ax"%string := PTarget t ]})
    = Ok [Contourf Plt xx yy V 8 kw; Colorbar Plt].
Proof.
  unfold plot. cbn [positional keywords plot_params bind_params].
  simplify_map_eq.
  apply plot_body_returns; [now simplify_map_eq .. | lra | lra].
Qed.

(** C6 (on the code): whatever axes object the caller passes as [ax],
    alone or with other arguments, and however the divisions round, a
    call of [plot] that returns has drawn its contours on the
    process-wide [plt], never on the object passed; and [plot(ax=Axes 1)]
    and [plot(Axes 1)] do return. *)
Theorem plot_ignores_supplied_axes :
  forall f : rounding,
    (forall (c : call) evs,
        plot f c = Ok evs ->
        exists xx yy V kw, evs = [Contourf Plt xx yy V 8 kw; Colorbar Plt])
    /\ (exists xx yy V kw,
          plot f (Call [] {[ "ax"%string := PTarget (Axes 1) ]})
          = Ok [Contourf Plt xx yy V 8 kw; Colorbar Plt])
    /\ (exists xx yy V kw,
          plot f (Call [PTarget (Axes 1)] ∅)
          = Ok [Contourf Plt xx yy V 8 kw; Colorbar Plt]).
Proof.
  intros f.
  split; [exact (plot_always_on_plt f) |].
  split; [apply plot_keyword_ax_returns |].
  unfold plot. cbn [positional keywords plot_params bind_params].
  simplify_map_eq.
  apply plot_body_returns; [now simplify_map_eq .. | lra | lra].
Qed.

Lemma plot_ignores_supplied_axes_witness :
  exists evs,
    plot Samples.short_step_rounding (Call [] {[ "ax"%string := PTarget (Axes 1) ]})
    = Ok evs
    /\ exists xx yy V kw, evs = [Contourf Plt xx yy V 8 kw; Colorbar Plt].
Proof.
  destruct (proj1 (proj2 (plot_ignores_supplied_axes Samples.short_step_rounding)))
    as (xx & yy & V & kw & H).
  eexists. split; [exact H |].
  exact (proj1 (plot_ignores_supplied_axes Samples.short_step_rounding) _ _ H).
Defined.

End PlotTarget.

(* ===================================================================== *)
(** * Theorems: the starting positions *)
(* ===================================================================== *)

Section StartingPositions.
Import Py Np Notebook.

Lemma Rleb_true a b : Rleb a b = true <-> a <= b.
Proof. unfold Rleb. destruct (Rle_dec a b); split; auto; discriminate. Qed.

Lemma isclose_true a b :
  isclose a b = true <-> Rabs (a - b) <= atol + rtol * Rabs b.
Proof. apply Rleb_true. Qed.

Lemma isclose_false a b :
  isclose a b = false <-> atol + rtol * Rabs b < Rabs (a - b).
Proof.
  unfold isclose, Rleb. destruct (Rle_dec _ _); split; intros; try lra; discriminate.
Qed.

Lemma passes_true p :
  passes p = true <-> Rabs (sum_sq p - 10 ^ 2) <= radius_tolerance.
Proof.
  unfold passes, radius_tolerance. rewrite isclose_true.
  rewrite (Rabs_pos_eq (10 ^ 2)) by lra. reflexivity.
Qed.

Lemma closeness_mask_rows (n : Z) (p : list vec3) :
  Z.to_nat n = List.length p ->
  closeness_mask n p = map passes p.
Proof.
  unfold closeness_mask, Notebook.r, sum_sq_rows. intros ->.
  induction p as [| q p IH]; [reflexivity |].
  simpl. f_equal. exact IH.
Qed.

Lemma all_map_passes (p : list vec3) :
  all (map passes p) = true <-> Forall (fun q => passes q = true) p.
Proof.
  unfold all. rewrite forallb_forall, Forall_forall. split.
  - intros H q Hq. apply H, in_map_iff. exists q. split; [reflexivity |].
    now apply list_elem_of_In.
  - intros H b Hb. apply in_map_iff in Hb as (q & <- & Hq).
    now apply H, list_elem_of_In.
Qed.

Lemma blend_true new prev : blend true new prev = prev.
Proof.
  destruct new as [[a b] c], prev as [[a' b'] c']. unfold blend, b2r. simpl.
  f_equal; [f_equal |]; ring.
Qed.

Lemma blend_false new prev : blend false new prev = new.
Proof.
  destruct new as [[a b] c], prev as [[a' b'] c']. unfold blend, b2r. simpl.
  f_equal; [f_equal |]; ring.
Qed.

(** The masked overwrite keeps a row that passes and takes the new
    proposal for a row that fails. *)
Lemma masked_overwrite_select (new prev : list vec3) :
  List.length new = List.length prev ->
  masked_overwrite (map passes prev) new prev
  = zip_with (fun a b => if passes b then b else a) new prev.
Proof.
  unfold masked_overwrite. revert new.
  induction prev as [| b prev IH]; intros [| a new] Hlen; try discriminate;
    [reflexivity |].
  simpl. f_equal; [| apply IH; now inversion Hlen].
  destruct (passes b); [apply blend_true | apply blend_false].
Qed.

Lemma length_candidates g k n : List.length (candidates g k n) = n.
Proof. unfold candidates. now rewrite !length_map, length_seq. Qed.

Lemma length_positions_after g n j : List.length (positions_after g n j) = n.
Proof.
  induction j as [| j IH]; simpl; [apply length_candidates |].
  unfold masked_overwrite. rewrite length_zip_with, length_zip_with.
  rewrite closeness_mask_rows by (now rewrite Nat2Z.id, IH).
  rewrite length_map, IH, length_candidates. lia.
Qed.

Lemma positions_after_succ g n j :
  positions_after g n (S j)
  = zip_with (fun a b => if passes b then b else a)
      (candidates g (S j) n) (positions_after g n j).
Proof.
  simpl. rewrite closeness_mask_rows
    by (now rewrite Nat2Z.id, length_positions_after).
  apply masked_overwrite_select.
  now rewrite length_candidates, length_positions_after.
Qed.

Lemma draw_rows g k (n : Z) :
  (0 <= n)%Z -> draw g k n = Ok (candidates g k (Z.to_nat n)).
Proof.
  intros Hn. unfold draw, random_rand.
  destruct (Z.ltb_spec n 0); [lia | reflexivity].
Qed.

Lemma draw_negative g k (n : Z) :
  (n < 0)%Z -> draw g k n = Err ValueError.
Proof.
  intros Hn. unfold draw, random_rand.
  destruct (Z.ltb_spec n 0); [reflexivity | lia].
Qed.

Lemma rejection_loop_unfold g n fuel k :
  rejection_loop g (Z.of_nat n) fuel k (positions_after g n k)
  = if batch_passes g n k then Ok (Accepted (positions_after g n k) k)
    else match fuel with
         | O => Ok StillLooping
         | S fuel' =>
             rejection_loop g (Z.of_nat n) fuel' (S k) (positions_after g n (S k))
         end.
Proof.
  unfold batch_passes. destruct fuel as [| fuel']; simpl;
    destruct (all _); try reflexivity.
  rewrite draw_rows by lia. rewrite Nat2Z.id. reflexivity.
Qed.

(** The loop leaves at the first batch that passes as a whole, if that
    comes within the fuel. *)
Lemma rejection_loop_exit g n : forall fuel k p k',
  rejection_loop g (Z.of_nat n) fuel k (positions_after g n k) = Ok (Accepted p k') ->
  (k <= k' <= k + fuel)%nat
  /\ p = positions_after g n k'
  /\ batch_passes g n k' = true
  /\ forall j, (k <= j < k')%nat -> batch_passes g n j = false.
Proof.
  induction fuel as [| fuel IH]; intros k p k' H; rewrite rejection_loop_unfold in H;
    destruct (batch_passes g n k) eqn:Hk.
  - inversion H; subst. repeat split; try lia; auto; intros j Hj; lia.
  - discriminate.
  - inversion H; subst. repeat split; try lia; auto; intros j Hj; lia.
  - apply IH in H as (Hr & -> & Hp & Hbefore).
    repeat split; try lia; auto.
    intros j Hj. destruct (Nat.eq_dec j k) as [-> | Hne]; [exact Hk |].
    apply Hbefore. lia.
Qed.

Lemma rejection_loop_still g n : forall fuel k,
  (forall j, (k <= j <= k + fuel)%nat -> batch_passes g n j = false) ->
  rejection_loop g (Z.of_nat n) fuel k (positions_after g n k) = Ok StillLooping.
Proof.
  induction fuel as [| fuel IH]; intros k H; rewrite rejection_loop_unfold;
    rewrite (H k) by lia; [reflexivity |].
  apply IH. intros j Hj. apply H. lia.
Qed.

Lemma rejection_loop_reaches g n : forall fuel k k',
  (k <= k' <= k + fuel)%nat ->
  batch_passes g n k' = true ->
  (forall j, (k <= j < k')%nat -> batch_passes g n j = false) ->
  rejection_loop g (Z.of_nat n) fuel k (positions_after g n k)
  = Ok (Accepted (positions_after g n k') k').
Proof.
  induction fuel as [| fuel IH]; intros k k' Hr Hp Hb; rewrite rejection_loop_unfold.
  - assert (k' = k) as -> by lia. now rewrite Hp.
  - destruct (Nat.eq_dec k' k) as [-> | Hne]; [now rewrite Hp |].
    rewrite (Hb k) by lia. apply IH; [lia | exact Hp |].
    intros j Hj. apply Hb. lia.
Qed.

Lemma startingPositions_unfold g n fuel :
  startingPositions g (Z.of_nat n) fuel
  = rejection_loop g (Z.of_nat n) fuel 0 (positions_after g n 0).
Proof.
  unfold startingPositions. rewrite draw_rows by lia.
  rewrite Nat2Z.id. reflexivity.
Qed.

Lemma Forall_select (P : vec3 -> Prop) (f : vec3 -> bool) (new : list vec3) :
  forall prev, Forall P new -> Forall P prev ->
  Forall P (zip_with (fun a b => if f b then b else a) new prev).
Proof.
  induction new as [| a new IH]; intros [| b prev] Hn Hp; simpl; try constructor.
  - inversion Hn; inversion Hp; subst. now destruct (f b).
  - inversion Hn; inversion Hp; subst. now apply IH.
Qed.

Lemma Forall_candidates (P : vec3 -> Prop) (g : rng) k n :
  (forall i, P (place (g k i))) -> Forall P (candidates g k n).
Proof.
  intros H. unfold candidates. apply Forall_forall. intros p Hp.
  apply list_elem_of_In, in_map_iff in Hp as (u & <- & Hu).
  apply in_map_iff in Hu as (i & <- & _). apply H.
Qed.

Lemma Forall_positions_after (P : vec3 -> Prop) (g : rng) n j :
  (forall k i, P (place (g k i))) -> Forall P (positions_after g n j).
Proof.
  intros H. induction j as [| j IH].
  - now apply Forall_candidates.
  - rewrite positions_after_succ. apply Forall_select; [| exact IH].
    now apply Forall_candidates.
Qed.

Lemma place_in_plane u : snd (place u) = 0.
Proof. destruct u as [[a b] c]. unfold place. simpl. ring. Qed.

Lemma passes_in_plane p :
  snd p = 0 -> passes p = isclose (col0 p ^ 2 + col1 p ^ 2) (10 ^ 2).
Proof.
  destruct p as [[x y] z]. unfold passes, sum_sq, col0, col1. simpl.
  intros ->. f_equal. ring.
Qed.

Lemma in_plane_rows (l : list vec3) :
  Forall (fun p => snd p = 0) l ->
  map passes l = map (fun p => isclose (col0 p ^ 2 + col1 p ^ 2) (10 ^ 2)) l.
Proof.
  induction 1 as [| p l Hp _ IH]; [reflexivity |].
  simpl. now rewrite IH, passes_in_plane.
Qed.

(** C10: every candidate position (initial draw and every retry) has
    third coordinate exactly 0, and so has every row the loop ever
    holds; on them the acceptance test on the 3D sum of squares is the
    in-plane test of x^2 + y^2 against r^2. *)
Theorem candidates_lie_in_plane :
  forall (g : rng) (n k : nat),
    draw g k (Z.of_nat n) = Ok (candidates g k n)
    /\ Forall (fun p => snd p = 0) (candidates g k n)
    /\ Forall (fun p => snd p = 0) (positions_after g n k)
    /\ closeness_mask (Z.of_nat n) (candidates g k n)
       = map (fun p => isclose (col0 p ^ 2 + col1 p ^ 2) (10 ^ 2)) (candidates g k n)
    /\ closeness_mask (Z.of_nat n) (positions_after g n k)
       = map (fun p => isclose (col0 p ^ 2 + col1 p ^ 2) (10 ^ 2))
             (positions_after g n k).
Proof.
  intros g n k.
  assert (Hc : Forall (fun p => snd p = 0) (candidates g k n))
    by (apply Forall_candidates; intros; apply place_in_plane).
  assert (Hp : Forall (fun p => snd p = 0) (positions_after g n k))
    by (apply Forall_positions_after; intros; apply place_in_plane).
  split; [| split; [exact Hc | split; [exact Hp | split]]].
  - rewrite draw_rows by lia. now rewrite Nat2Z.id.
  - rewrite closeness_mask_rows by (now rewrite Nat2Z.id, length_candidates).
    now apply in_plane_rows.
  - rewrite closeness_mask_rows by (now rewrite Nat2Z.id, length_positions_after).
    now apply in_plane_rows.
Qed.

(** C9: a retry draws a proposal for every one of the n particles, and
    the masked overwrite changes only rows that failed the test: a row
    that passed before the retry is the same row after it, and a row
    that failed is replaced by its new proposal. *)
Theorem retry_keeps_passing_rows :
  forall (g : rng) (k n : nat) (prev : list vec3) (i : nat) (p : vec3),
    List.length prev = n ->
    prev !! i = Some p ->
    let next := masked_overwrite (closeness_mask (Z.of_nat n) prev)
                                 (candidates g k n) prev in
    List.length (candidates g k n) = n
    /\ List.length next = n
    /\ (passes p = true -> next !! i = Some p)
    /\ (passes p = false -> next !! i = candidates g k n !! i).
Proof.
  intros g k n prev i p Hlen Hi next. subst next.
  rewrite closeness_mask_rows by (now rewrite Nat2Z.id).
  rewrite masked_overwrite_select by (now rewrite length_candidates).
  split; [apply length_candidates |].
  split; [rewrite length_zip_with, length_candidates; lia |].
  assert (Hlt : (i < n)%nat) by (rewrite <- Hlen; eapply lookup_lt_Some; eauto).
  destruct (lookup_lt_is_Some_2 (candidates g k n) i) as [a Ha];
    [now rewrite length_candidates |].
  rewrite lookup_zip_with, Ha, Hi. simpl.
  split; intros ->; reflexivity.
Qed.

Lemma passes_false p :
  passes p = false <-> radius_tolerance < Rabs (sum_sq p - 10 ^ 2).
Proof.
  unfold passes, radius_tolerance. rewrite isclose_false.
  rewrite (Rabs_pos_eq (10 ^ 2)) by lra. reflexivity.
Qed.

Lemma accepted_row_radius (q : vec3) :
  snd q = 0 -> passes q = true ->
  Rabs (col0 q ^ 2 + col1 q ^ 2 - 10 ^ 2) <= radius_tolerance.
Proof.
  destruct q as [[x y] z]. unfold col0, col1. cbn [fst snd]. intros -> H.
  apply passes_true in H. unfold sum_sq in H.
  replace (x ^ 2 + y ^ 2 - 10 ^ 2) with (x ^ 2 + y ^ 2 + 0 ^ 2 - 10 ^ 2) by ring.
  exact H.
Qed.

(** C3: when the rejection loop ends, the batch it leaves with has one
    row per particle, every row of it passes the closeness test in the
    same evaluation of the mask, so |x^2 + y^2 - r^2| is within the
    test's tolerance (strictly below any larger tolerance) for all rows
    at once; the batch is the one held at the iteration of the exit,
    and at every earlier iteration some row failed. *)
Theorem accepted_batch_on_circle :
  forall (g : rng) (n : Z) (fuel : nat) (p : list vec3) (k : nat),
    startingPositions g n fuel = Ok (Accepted p k) ->
    List.length p = Z.to_nat n
    /\ all (closeness_mask n p) = true
    /\ Forall (fun q =>
         Rabs (col0 q ^ 2 + col1 q ^ 2 - 10 ^ 2) <= radius_tolerance
         /\ forall tolerance, radius_tolerance < tolerance ->
              Rabs (col0 q ^ 2 + col1 q ^ 2 - 10 ^ 2) < tolerance) p
    /\ p = positions_after g (Z.to_nat n) k
    /\ forall j, (j < k)%nat -> batch_passes g (Z.to_nat n) j = false.
Proof.
  intros g n fuel p k H.
  destruct (Z.ltb_spec n 0) as [Hneg | Hpos].
  { unfold startingPositions in H. rewrite draw_negative in H by exact Hneg.
    discriminate. }
  rewrite <- (Z2Nat.id n) in H by exact Hpos.
  rewrite startingPositions_unfold in H.
  apply rejection_loop_exit in H as (_ & -> & Hpass & Hbefore).
  assert (Hlen := length_positions_after g (Z.to_nat n) k).
  assert (Hmask : all (closeness_mask n (positions_after g (Z.to_nat n) k)) = true).
  { unfold batch_passes in Hpass. now rewrite Z2Nat.id in Hpass. }
  split; [exact Hlen |]. split; [exact Hmask |].
  split; [| split; [reflexivity | intros j Hj; apply Hbefore; lia]].
  rewrite closeness_mask_rows in Hmask by (now rewrite Hlen).
  apply all_map_passes in Hmask.
  assert (Hz := Forall_positions_after (fun q => snd q = 0) g (Z.to_nat n) k
                  (fun _ _ => place_in_plane _)).
  rewrite Forall_forall in *. intros q Hq.
  assert (Hr := accepted_row_radius q (Hz q Hq) (Hmask q Hq)).
  split; [exact Hr | intros tolerance Ht; lra].
Qed.

(** The loop never leaves while some row fails at every iteration. *)
Lemma loops_while_some_row_fails g n :
  (forall j, batch_passes g n j = false) ->
  forall fuel, startingPositions g (Z.of_nat n) fuel = Ok StillLooping.
Proof.
  intros H fuel. rewrite startingPositions_unfold.
  apply rejection_loop_still. intros j _. apply H.
Qed.

Lemma stuck_rng_uniform : uniform01 Samples.stuck_rng.
Proof. intros k i. unfold Samples.stuck_rng, in01. lra. Qed.

Lemma centre_fails : passes (place (1 / 2, 1 / 2, 1 / 2)) = false.
Proof.
  apply passes_false. unfold place, sum_sq, radius_tolerance, atol, rtol.
  replace ((1 / 2 * 20 + -10) ^ 2 + (1 / 2 * 20 + -10) ^ 2 + (1 / 2 * 0 + 0) ^ 2
           - 10 ^ 2) with (- 100) by lra.
  unfold Rabs. destruct (Rcase_abs _); lra.
Qed.

Lemma stuck_rng_never_passes n j :
  (0 < n)%nat -> batch_passes Samples.stuck_rng n j = false.
Proof.
  intros Hn. unfold batch_passes.
  rewrite closeness_mask_rows by (now rewrite Nat2Z.id, length_positions_after).
  assert (Hall : Forall (fun q => passes q = false)
                   (positions_after Samples.stuck_rng n j))
    by (apply Forall_positions_after; intros; apply centre_fails).
  assert (Hlen := length_positions_after Samples.stuck_rng n j).
  destruct (positions_after Samples.stuck_rng n j) as [| q l]; simpl in Hlen; [lia |].
  inversion Hall as [| ? ? Hq _]; subst.
  unfold all. simpl. now rewrite Hq.
Qed.

(** C8: the loop has no iteration cap.  It goes on for as long as some
    row fails at the head of every iteration, whatever the number of
    retries allowed; and for any positive particle count some sequence
    of draws in [0,1) fails a row at every iteration, so that the loop
    is still running after any number of retries. *)
Theorem rejection_loop_has_no_cap :
  (forall (g : rng) (n : nat),
      (forall j, batch_passes g n j = false) ->
      forall fuel, startingPositions g (Z.of_nat n) fuel = Ok StillLooping)
  /\ (forall n : nat, (0 < n)%nat ->
        exists g : rng,
          uniform01 g
          /\ (forall j, batch_passes g n j = false)
          /\ forall fuel, startingPositions g (Z.of_nat n) fuel = Ok StillLooping).
Proof.
  split; [exact loops_while_some_row_fails |].
  intros n Hn. exists Samples.stuck_rng.
  split; [exact stuck_rng_uniform |].
  split; [intros j; now apply stuck_rng_never_passes |].
  apply loops_while_some_row_fails. intros j. now apply stuck_rng_never_passes.
Qed.

Lemma rejection_loop_has_no_cap_witness :
  (0 < 10)%nat
  /\ (forall j, batch_passes Samples.stuck_rng 10 j = false)
  /\ startingPositions Samples.stuck_rng (nParticles config) 1000 = Ok StillLooping
  /\ exists g : rng,
       uniform01 g /\ startingPositions g (nParticles config) 1000 = Ok StillLooping.
Proof.
  assert (Hn : (0 < 10)%nat) by lia.
  assert (Hs : forall j, batch_passes Samples.stuck_rng 10 j = false)
    by (intros j; apply stuck_rng_never_passes; lia).
  split; [exact Hn |]. split; [exact Hs |]. split.
  - exact (proj1 rejection_loop_has_no_cap Samples.stuck_rng 10%nat Hs 1000%nat).
  - destruct (proj2 rejection_loop_has_no_cap 10%nat Hn) as (g & Hu & _ & Hl).
    exists g. split; [exact Hu | exact (Hl 1000%nat)].
Defined.

Ltac radius_test :=
  unfold place, sum_sq, radius_tolerance, atol, rtol;
  match goal with
  | |- context [Rabs ?v] =>
      let w := fresh "w" in
      let Hw := fresh "Hw" in
      remember v as w eqn:Hw; ring_simplify in Hw; subst w;
      unfold Rabs; destruct (Rcase_abs _); lra
  end.

Lemma west_point_passes : passes (place (0, 1 / 2, 0)) = true.
Proof. apply passes_true. radius_test. Qed.

Lemma south_point_passes : passes (place (1 / 2, 0, 0)) = true.
Proof. apply passes_true. radius_test. Qed.

Lemma centre_in_plane_fails : passes (place (1 / 2, 1 / 2, 0)) = false.
Proof. apply passes_false. radius_test. Qed.

Lemma retry_rng_first_batch :
  positions_after Samples.retry_rng 2 0
  = [place (0, 1 / 2, 0); place (1 / 2, 1 / 2, 0)].
Proof. reflexivity. Qed.

Lemma retry_rng_second_batch :
  positions_after Samples.retry_rng 2 1
  = [place (0, 1 / 2, 0); place (1 / 2, 0, 0)].
Proof.
  rewrite positions_after_succ, retry_rng_first_batch.
  cbn [candidates map seq Samples.retry_rng zip_with].
  now rewrite west_point_passes, centre_in_plane_fails.
Qed.

Lemma retry_rng_accepted :
  startingPositions Samples.retry_rng 2 5
  = Ok (Accepted [place (0, 1 / 2, 0); place (1 / 2, 0, 0)] 1).
Proof.
  etransitivity; [exact (startingPositions_unfold Samples.retry_rng 2 5) |].
  rewrite <- retry_rng_second_batch.
  apply rejection_loop_reaches; [lia | |].
  - unfold batch_passes.
    rewrite closeness_mask_rows
      by (now rewrite Nat2Z.id, length_positions_after).
    rewrite retry_rng_second_batch. unfold all. cbn [map forallb].
    now rewrite west_point_passes, south_point_passes.
  - intros j Hj. assert (j = 0)%nat as -> by lia. unfold batch_passes.
    rewrite closeness_mask_rows
      by (now rewrite Nat2Z.id, length_positions_after).
    rewrite retry_rng_first_batch. unfold all. cbn [map forallb].
    now rewrite west_point_passes, centre_in_plane_fails.
Qed.

Lemma accepted_batch_on_circle_witness :
  startingPositions Samples.retry_rng 2 5
  = Ok (Accepted [place (0, 1 / 2, 0); place (1 / 2, 0, 0)] 1)
  /\ all (closeness_mask 2 [place (0, 1 / 2, 0); place (1 / 2, 0, 0)]) = true
  /\ batch_passes Samples.retry_rng 2 0 = false.
Proof.
  assert (H := retry_rng_accepted).
  destruct (accepted_batch_on_circle Samples.retry_rng 2 5 _ 1%nat H)
    as (_ & Hmask & _ & _ & Hbefore).
  split; [exact H |]. split; [exact Hmask |].
  apply Hbefore. lia.
Defined.

Lemma retry_keeps_passing_rows_witness :
  List.length Samples.first_batch = 2%nat
  /\ Samples.first_batch !! 0%nat = Some (place (0, 1 / 2, 0))
  /\ passes (place (0, 1 / 2, 0)) = true
  /\ masked_overwrite (closeness_mask 2 Samples.first_batch)
       (candidates Samples.retry_rng 1 2) Samples.first_batch !! 0%nat
     = Some (place (0, 1 / 2, 0)).
Proof.
  assert (Hl : List.length Samples.first_batch = 2%nat) by reflexivity.
  assert (Hi : Samples.first_batch !! 0%nat = Some (place (0, 1 / 2, 0)))
    by reflexivity.
  split; [exact Hl |]. split; [exact Hi |]. split; [exact west_point_passes |].
  exact (proj1 (proj2 (proj2
           (retry_keeps_passing_rows Samples.retry_rng 1 2 Samples.first_batch 0
              (place (0, 1 / 2, 0)) Hl Hi))) west_point_passes).
Defined.

End StartingPositions.

(* ===================================================================== *)
(** * Theorems: parameters and engine construction *)
(* ===================================================================== *)

Section EngineSetup.
Import Py Np Notebook.

Lemma circle_rng_accepted (n fuel : nat) :
  startingPositions Samples.circle_rng (Z.of_nat n) fuel
  = Ok (Accepted (candidates Samples.circle_rng 0 n) 0).
Proof.
  rewrite startingPositions_unfold.
  apply (rejection_loop_reaches Samples.circle_rng n fuel 0 0); [lia | | intros j Hj; lia].
  unfold batch_passes.
  rewrite closeness_mask_rows by (now rewrite Nat2Z.id, length_positions_after).
  apply all_map_passes. apply Forall_positions_after.
  intros k i. exact west_point_passes.
Qed.




(** Issuing calls ends with all of them made or with the error of the
    first call the engine refuses; never otherwise. *)
Lemma issue_ends eng : forall todo done,
  issue eng done todo = Built (done ++ todo)
  \/ exists e pre c post,
       todo = pre ++ c :: post /\ eng (done ++ pre) c = Some e
       /\ issue eng done todo = EngineRaised e (done ++ pre) c.
Proof.
  induction todo as [| c0 todo IH]; intros done; simpl.
  - left. now rewrite app_nil_r.
  - destruct (eng done c0) as [e |] eqn:He.
    + right. exists e, [], c0, todo. now rewrite app_nil_r.
    + destruct (IH (done ++ [c0])) as [-> | (e & pre & c & post & -> & Hc & ->)].
      * left. now rewrite <- app_assoc.
      * right. exists e, (c0 :: pre), c, post.
        rewrite <- app_assoc in *. auto.
Qed.


Lemma bad_config_accepted :
  startingPositions Samples.circle_rng (nParticles Samples.bad_config) 0
  = Ok (Accepted [place (0, 1 / 2, 0)] 0).
Proof. exact (circle_rng_accepted 1 0). Qed.




End EngineSetup.

(* ===================================================================== *)
(** * Theorems: the sampling loop *)
(* ===================================================================== *)

Section SamplingLoop.
Import Py Np Notebook.

Lemma integrator_step_add (E : Engine) a b (c : context E) :
  integrator_step E (a + b) c = integrator_step E b (integrator_step E a c).
Proof.
  unfold integrator_step. rewrite Nat.add_comm. apply Nat.iter_add.
Qed.

Lemma sampling_loop_from (E : Engine) steps (c : context E) :
  forall iterations k0,
    sampling_loop E iterations steps (integrator_step E (k0 * steps) c)
    = (flat_map (iteration_events E steps c) (seq k0 iterations),
       integrator_step E ((k0 + iterations) * steps) c).
Proof.
  induction iterations as [| m IH]; intros k0.
  - simpl. now rewrite Nat.add_0_r.
  - cbn [sampling_loop].
    rewrite <- integrator_step_add.
    replace (k0 * steps + steps)%nat with (S k0 * steps)%nat by lia.
    rewrite IH. cbn [seq flat_map]. unfold iteration_events at 2. cbn [app].
    do 3 f_equal. lia.
Qed.

Lemma sampling_loop_events (E : Engine) iterations steps (c : context E) :
  sampling_loop E iterations steps c
  = (flat_map (iteration_events E steps c) (seq 0 iterations),
     integrator_step E (iterations * steps) c).
Proof. exact (sampling_loop_from E steps c iterations 0). Qed.

Lemma snapshots_of_iterations (E : Engine) steps (c : context E) (ks : list nat) :
  snapshots (flat_map (iteration_events E steps c) ks)
  = map (fun k =>
           let x := getPositions E (integrator_step E (k * steps) c) in
           (map col0 x, map col1 x)) ks.
Proof.
  induction ks as [| k ks IH]; [reflexivity |].
  cbn [flat_map map]. unfold snapshots in *. rewrite flat_map_app, IH.
  reflexivity.
Qed.

(** C2 (as amended): every iteration first reads the positions back and
    emits their (x, y) columns as one snapshot, and only then performs
    the integrator steps: snapshot k (from 0) shows the ensemble after
    k * stepsPerSample steps, the first one the starting positions.
    A run of numberOfSamples iterations emits exactly numberOfSamples
    snapshots, each with N x-values and N y-values when the engine
    holds N particles, and leaves the engine
    numberOfSamples * stepsPerSample steps on. *)
Theorem sampling_loop_snapshot_then_step :
  forall (E : Engine) (N iterations steps : nat) (c : context E),
    (forall m, List.length (getPositions E (integrator_step E m c)) = N) ->
    fst (sampling_loop E iterations steps c)
    = flat_map (iteration_events E steps c) (seq 0 iterations)
    /\ snd (sampling_loop E iterations steps c)
       = integrator_step E (iterations * steps) c
    /\ snapshots (fst (sampling_loop E iterations steps c))
       = map (fun k =>
                let x := getPositions E (integrator_step E (k * steps) c) in
                (map col0 x, map col1 x)) (seq 0 iterations)
    /\ List.length (snapshots (fst (sampling_loop E iterations steps c))) = iterations
    /\ Forall (fun s => List.length (fst s) = N /\ List.length (snd s) = N)
         (snapshots (fst (sampling_loop E iterations steps c))).
Proof.
  intros E N iterations steps c HN.
  rewrite sampling_loop_events. cbn [fst snd].
  rewrite snapshots_of_iterations.
  split; [reflexivity |]. split; [reflexivity |]. split; [reflexivity |].
  split; [now rewrite length_map, length_seq |].
  apply Forall_forall. intros s Hs.
  apply list_elem_of_In, in_map_iff in Hs as (k & <- & _).
  cbn [fst snd]. now rewrite !length_map, HN.
Qed.

Lemma counter_engine_rows m :
  List.length (getPositions Samples.counter_engine
                 (integrator_step Samples.counter_engine m 0%nat)) = 1%nat.
Proof. reflexivity. Qed.

Lemma sampling_loop_snapshot_then_step_witness :
  (forall m, List.length (getPositions Samples.counter_engine
               (integrator_step Samples.counter_engine m 0%nat)) = 1%nat)
  /\ snapshots (fst (sampling_loop Samples.counter_engine 4 250 0%nat))
     = [([INR 0], [0]); ([INR 250], [0]); ([INR 500], [0]); ([INR 750], [0])]
  /\ List.length (snapshots (fst (sampling_loop Samples.counter_engine 4 250 0%nat)))
     = 4%nat
  /\ snd (sampling_loop Samples.counter_engine 4 250 0%nat) = 1000%nat.
Proof.
  destruct (sampling_loop_snapshot_then_step Samples.counter_engine 1 4 250 0%nat
              counter_engine_rows) as (_ & Hend & Hsnap & Hlen & _).
  split; [exact counter_engine_rows |].
  split; [| split; [exact Hlen |]].
  - rewrite Hsnap. vm_compute. reflexivity.
  - rewrite Hend. vm_compute. reflexivity.
Defined.

Lemma INR_250_nonzero : INR 250 <> INR 0.
Proof. apply not_INR. lia. Qed.

(** C2 (as stated) fails: on the step-counting engine one iteration of
    the loop emits the snapshot of the positions before any step, and
    steps afterwards; the specification's order would step first and
    show the positions after 250 steps. *)
Lemma sampling_reads_before_stepping :
  fst (sampling_loop Samples.counter_engine 1 250 0%nat)
  = [Scatter [INR 0] [0]; IntegratorStep 250]
  /\ fst (Spec.sampling_loop Samples.counter_engine 1 250 0%nat)
     = [IntegratorStep 250; Scatter [INR 250] [0]]
  /\ fst (sampling_loop Samples.counter_engine 1 250 0%nat)
     <> fst (Spec.sampling_loop Samples.counter_engine 1 250 0%nat)
  /\ snapshots (fst (sampling_loop Samples.counter_engine 1 250 0%nat))
     <> snapshots (fst (Spec.sampling_loop Samples.counter_engine 1 250 0%nat)).
Proof.
  assert (Hcode : fst (sampling_loop Samples.counter_engine 1 250 0%nat)
                  = [Scatter [INR 0] [0]; IntegratorStep 250]) by reflexivity.
  assert (Hspec : fst (Spec.sampling_loop Samples.counter_engine 1 250 0%nat)
                  = [IntegratorStep 250; Scatter [INR 250] [0]])
    by (vm_compute; reflexivity).
  split; [exact Hcode |]. split; [exact Hspec |].
  rewrite Hcode, Hspec. split; [discriminate |].
  cbn [snapshots flat_map app]. intros H.
  inversion H as [H0]. now apply INR_250_nonzero.
Qed.

End SamplingLoop.

(* ===================================================================== *)
(** * Further theorems: size of the potential and of the restraint *)
(* ===================================================================== *)

Section PotentialBounds.

Lemma wall_nonneg x y : 0 <= 0.2 * ((x / 8) ^ 2 + (y / 8) ^ 2) ^ 3.
Proof.
  assert (H : 0 <= (x / 8) ^ 2 + (y / 8) ^ 2) by nra.
  apply Rmult_le_pos; [lra |]. now apply pow_le.
Qed.

(** X2: the energy the evaluator computes is the in-plane potential plus
    the restraint 1000*z^2; it is never below the potential and equals
    it exactly when z = 0. *)
Theorem energy_is_potential_plus_restraint :
  forall x y z : R,
    TwoDFunnel.energy x y z = Some (TwoDFunnel.potential x y + 1000.0 * z ^ 2)
    /\ TwoDFunnel.potential x y <= TwoDFunnel.potential x y + 1000.0 * z ^ 2
    /\ (TwoDFunnel.potential x y + 1000.0 * z ^ 2 = TwoDFunnel.potential x y
        <-> z = 0).
Proof.
  intros x y z. split; [| split].
  - rewrite energy_closed_form. reflexivity.
  - nra.
  - split; intros H; [nra | subst; lra].
Qed.

End PotentialBounds.

(* ===================================================================== *)
(** * Further theorems: keywords, window and grid of [plot] *)
(* ===================================================================== *)

Section PlotGrid.
Import Py Np TwoDFunnel.

(** A keyword that names no parameter reaches [kwargs] unchanged. *)
Lemma bind_params_passes_on params : forall pos (kw : gmap string pyval) vs rest,
  bind_params params pos kw = Ok (vs, rest) ->
  forall k, ~ In k (map fst params) -> rest !! k = kw !! k.
Proof.
  induction params as [| [name dflt] params IH]; intros pos kw vs rest H k Hk.
  - destruct pos; simpl in H; [| discriminate]. now inversion H; subst.
  - simpl in H, Hk. destruct pos as [| v pos'].
    + destruct (bind_params params [] (delete name kw)) as [[vs' rest'] |] eqn:Hb;
        simpl in H; [| discriminate].
      inversion H; subst. rewrite (IH _ _ _ _ Hb k) by tauto.
      apply lookup_delete_ne. intros ->. tauto.
    + destruct (kw !! name) eqn:Hn; [discriminate |].
      destruct (bind_params params pos' kw) as [[vs' rest'] |] eqn:Hb;
        simpl in H; [| discriminate].
      inversion H; subst. apply (IH _ _ _ _ Hb k). tauto.
Qed.

(** What a returning call of [plot] went through. *)
Lemma plot_returns_inv f (c : call) evs :
  plot f c = Ok evs ->
  exists vs rest x0 x1 y0 y1 xx yy,
    bind_params plot_params (positional c) (keywords c) = Ok (vs, rest)
    /\ mgrid f x0 x1 y0 y1 (fdiv f (Rmax (x1 - x0) (y1 - y0)) 1000) = Ok (xx, yy)
    /\ rest !! "nchunk"%string = None
    /\ evs = [Contourf Plt xx yy (potential_grid xx yy) 8
                (<["nchunk"%string := PInt 3]> rest); Colorbar Plt].
Proof.
  unfold plot.
  destruct (bind_params plot_params (positional c) (keywords c))
    as [[vs rest] |] eqn:Hb; [| discriminate].
  assert (Hax : rest !! "ax"%string = None).
  { eapply bind_params_consumes; [exact Hb |]. simpl. auto. }
  destruct vs as [| ax [| minx [| maxx [| miny [| maxy [| ? ?]]]]]]; try discriminate.
  destruct (as_real minx) as [x0 |], (as_real maxx) as [x1 |],
           (as_real miny) as [y0 |], (as_real maxy) as [y1 |]; try discriminate.
  unfold plot_body. rewrite Hax. cbn [default].
  rewrite (delete_id rest "ax"%string Hax).
  destruct (mgrid _ _ _ _ _ _) as [[xx yy] |] eqn:Hg; [| discriminate].
  cbn [bind].
  destruct (rest !! "nchunk"%string) eqn:Hn; [discriminate |].
  intros H. inversion H; subst.
  exists [ax; minx; maxx; miny; maxy], rest, x0, x1, y0, y1, xx, yy. auto.
Qed.

(** X3: when [plot] returns, [contourf] has received [nchunk=3] and every
    keyword of the call that names no parameter of [plot], unchanged;
    the five parameter names never reach it; and the call carried no
    [nchunk] keyword of its own. *)
Theorem plot_forwards_keywords :
  forall (f : rounding) (c : call) evs,
    plot f c = Ok evs ->
    exists xx yy V kw,
      evs = [Contourf Plt xx yy V 8 kw; Colorbar Plt]
      /\ kw !! "nchunk"%string = Some (PInt 3)
      /\ (forall name, In name (map fst plot_params) -> kw !! name = None)
      /\ (forall k, ~ In k (map fst plot_params) -> k <> "nchunk"%string ->
            kw !! k = keywords c !! k)
      /\ keywords c !! "nchunk"%string = None.
Proof.
  intros f c evs H.
  apply plot_returns_inv in H
    as (vs & rest & x0 & x1 & y0 & y1 & xx & yy & Hb & _ & Hn & ->).
  exists xx, yy, (potential_grid xx yy), (<["nchunk"%string := PInt 3]> rest).
  split; [reflexivity |]. split; [apply lookup_insert_eq |].
  split; [| split].
  - intros name Hin. rewrite lookup_insert_ne.
    + eapply bind_params_consumes; eauto.
    + intros <-. simpl in Hin. intuition discriminate.
  - intros k Hk Hne. rewrite lookup_insert_ne by congruence.
    eapply bind_params_passes_on; eauto.
  - rewrite <- Hn. symmetry. eapply bind_params_passes_on; [exact Hb |].
    simpl. intuition discriminate.
Qed.

Lemma plot_forwards_keywords_witness :
  exists evs,
    plot Samples.short_step_rounding (Call [] {[ "ax"%string := PTarget (Axes 1) ]})
    = Ok evs
    /\ exists xx yy V kw,
         evs = [Contourf Plt xx yy V 8 kw; Colorbar Plt]
         /\ kw !! "nchunk"%string = Some (PInt 3)
         /\ kw !! "ax"%string = None.
Proof.
  destruct (plot_keyword_ax_returns Samples.short_step_rounding (Axes 1))
    as (xx0 & yy0 & V0 & kw0 & H).
  eexists. split; [exact H |].
  destruct (plot_forwards_keywords _ _ _ H) as (xx & yy & V & kw & He & Hn & Hp & _).
  exists xx, yy, V, kw. split; [exact He |]. split; [exact Hn |].
  apply Hp. simpl. auto.
Defined.

(** X4: a call that passes [nchunk] itself never returns: [contourf]
    would get the keyword twice.  With the default window the error is a
    [TypeError]. *)
Theorem plot_rejects_nchunk :
  forall (f : rounding) (kw : gmap string pyval) (v : pyval),
    kw !! "nchunk"%string = Some v ->
    (forall pos evs, plot f (Call pos kw) <> Ok evs)
    /\ ((forall name, In name ["minx"; "maxx"; "miny"; "maxy"]%string -> kw !! name = None) ->
        plot f (Call [] kw) = Err TypeError).
Proof.
  intros f kw v Hv. split.
  - intros pos evs H.
    apply plot_returns_inv in H as (vs & rest & _ & _ & _ & _ & _ & _ & Hb & _ & Hn & _).
    cbn [keywords] in Hb.
    rewrite (bind_params_passes_on _ _ _ _ _ Hb) in Hn by (simpl; intuition discriminate).
    congruence.
  - intros Hw. unfold plot. cbn [positional keywords plot_params bind_params].
    rewrite !lookup_delete_ne by discriminate.
    rewrite !Hw by (simpl; auto 6). cbn [default bind as_real].
    unfold plot_body.
    destruct (mgrid_returns f (-11.0) 11.0 (-11.0) 11.0
                (fdiv f (Rmax (11.0 - -11.0) (11.0 - -11.0)) 1000)) as (xx & yy & ->);
      [| lra | lra |].
    + apply grid_width_pos. lra.
    + cbn [bind]. rewrite !(lookup_delete_ne _ _ "ax"%string) by discriminate.
      rewrite lookup_delete_eq. cbn [default].
      rewrite !lookup_delete_ne by discriminate. now rewrite Hv.
Qed.

Lemma plot_rejects_nchunk_witness :
  ({[ "nchunk"%string := PInt 5 ]} : gmap string pyval) !! "nchunk"%string = Some (PInt 5)
  /\ plot Samples.short_step_rounding (Call [] {[ "nchunk"%string := PInt 5 ]})
     = Err TypeError.
Proof.
  assert (H : ({[ "nchunk"%string := PInt 5 ]} : gmap string pyval) !! "nchunk"%string
              = Some (PInt 5)) by reflexivity.
  split; [exact H |].
  apply (proj2 (plot_rejects_nchunk Samples.short_step_rounding _ _ H)).
  intros name Hin. simpl in Hin.
  destruct Hin as [<- | [<- | [<- | [<- | []]]]]; reflexivity.
Defined.

(** X5: a window of zero extent (the larger of its two sides is 0) makes
    the grid step zero, and [plot] raises [ZeroDivisionError] before
    anything is drawn. *)
Theorem plot_empty_window_fails :
  forall (f : rounding) (ax : pyval) (minx maxx miny maxy : R)
         (kw : gmap string pyval),
    Rmax (maxx - minx) (maxy - miny) = 0 ->
    plot_body f ax minx maxx miny maxy kw = Err ZeroDivisionError
    /\ plot f (Call [ax; PFloat minx; PFloat maxx; PFloat miny; PFloat maxy] ∅)
       = Err ZeroDivisionError.
Proof.
  intros f ax minx maxx miny maxy kw H0.
  assert (Hbody : forall kw',
            plot_body f ax minx maxx miny maxy kw' = Err ZeroDivisionError).
  { intros kw'. unfold plot_body, mgrid, fdiv. rewrite H0.
    replace (0 / 1000) with 0 by lra. rewrite rnd_zero.
    destruct (Req_dec_T 0 0) as [_ | Hne]; [reflexivity | now exfalso]. }
  split; [apply Hbody |].
  unfold plot. cbn [positional keywords plot_params bind_params].
  simplify_map_eq. apply Hbody.
Qed.

Lemma plot_empty_window_fails_witness :
  Rmax (3 - 3) (1 - 2) = 0
  /\ plot Samples.short_step_rounding
       (Call [PNone; PFloat 3; PFloat 3; PFloat 2; PFloat 1] ∅)
     = Err ZeroDivisionError.
Proof.
  assert (H : Rmax (3 - 3) (1 - 2) = 0).
  { unfold Rmax. destruct (Rle_dec _ _); lra. }
  split; [exact H |].
  exact (proj2 (plot_empty_window_fails Samples.short_step_rounding PNone 3 3 2 1 ∅ H)).
Defined.

Lemma zip_with_over_maps {A B C D} (f : B -> C -> D) (a : A -> B) (b : A -> C) l :
  zip_with f (map a l) (map b l) = map (fun i => f (a i) (b i)) l.
Proof. induction l as [| i l IH]; simpl; [reflexivity | now rewrite IH]. Qed.

(** X6: the arrays given to [contourf] have one shape, one row per point
    of the x axis and one column per point of the y axis, and
    V[i][j] = potential(minx + i*step, miny + j*step). *)
Theorem grid_values :
  forall (f : rounding) (minx maxx miny maxy step : R) (xx yy : list (list R)),
    mgrid f minx maxx miny maxy step = Ok (xx, yy) ->
    let nx := Z.to_nat (mgrid_size f minx maxx step) in
    let ny := Z.to_nat (mgrid_size f miny maxy step) in
    xx = map (fun i => map (fun _ => INR i * step + minx) (seq 0 ny)) (seq 0 nx)
    /\ yy = map (fun _ => map (fun j => INR j * step + miny) (seq 0 ny)) (seq 0 nx)
    /\ potential_grid xx yy
       = map (fun i =>
                map (fun j => potential (INR i * step + minx) (INR j * step + miny))
                    (seq 0 ny)) (seq 0 nx).
Proof.
  intros f minx maxx miny maxy step xx yy H nx ny. subst nx ny.
  unfold mgrid in H.
  destruct (Req_dec_T step 0); [discriminate |].
  destruct (_ || _)%bool; [discriminate |].
  inversion H as [[Hxx Hyy]]. clear H. unfold mgrid_axis.
  split; [| split].
  - rewrite map_map. apply map_ext. intros i. now rewrite map_map.
  - now rewrite map_map.
  - unfold potential_grid. rewrite !map_map, zip_with_over_maps.
    apply map_ext. intros i. rewrite map_map. apply zip_with_over_maps.
Qed.

Lemma grid_values_witness :
  exists xx yy,
    mgrid Samples.short_step_rounding (-11.0) 11.0 (-11.0) 11.0 (22 / 1000)
    = Ok (xx, yy)
    /\ potential_grid xx yy
       = map (fun i =>
                map (fun j => potential (INR i * (22 / 1000) + -11.0)
                                        (INR j * (22 / 1000) + -11.0))
                    (seq 0 (Z.to_nat (mgrid_size Samples.short_step_rounding
                                        (-11.0) 11.0 (22 / 1000)))))
             (seq 0 (Z.to_nat (mgrid_size Samples.short_step_rounding
                                 (-11.0) 11.0 (22 / 1000)))).
Proof.
  destruct (mgrid_returns Samples.short_step_rounding (-11.0) 11.0 (-11.0) 11.0
              (22 / 1000))
    as (xx & yy & H); [lra | lra | lra |].
  exists xx, yy. split; [exact H |].
  exact (proj2 (proj2 (grid_values _ _ _ _ _ _ _ _ H))).
Defined.

Lemma ceil_le v (n : Z) : v <= IZR n -> (ceil v <= n)%Z.
Proof.
  intros Hv. unfold ceil.
  destruct (archimed (- v)) as [Hup _].
  assert (H : IZR (- n) < IZR (up (- v))) by (rewrite opp_IZR; lra).
  apply lt_IZR in H. lia.
Qed.

Lemma ceil_gt v (n : Z) : IZR n < v -> (n < ceil v)%Z.
Proof.
  intros Hv. unfold ceil.
  destruct (archimed (- v)) as [_ Hup].
  assert (H : IZR (up (- v)) < IZR (1 - n)) by (rewrite minus_IZR; lra).
  apply lt_IZR in H. lia.
Qed.

Lemma below_ceil v (i : nat) : (Z.of_nat i < ceil v)%Z -> INR i < v.
Proof.
  unfold ceil. intros Hi.
  destruct (archimed (- v)) as [Hup _].
  assert (H : IZR (Z.of_nat i) <= IZR (- up (- v))) by (apply IZR_le; lia).
  rewrite opp_IZR, <- INR_IZR_INZ in H. lra.
Qed.

(** The rounded quotient extent / step of one axis, for the step of
    [plot]: never above 1001, and above 999 on the longer side. *)
Lemma size_quotient_bounds f (w h : R) :
  0 < w -> 0 <= h <= w ->
  let step := fdiv f w 1000 in
  0 < step
  /\ 0 <= fdiv f h step <= 1001
  /\ fdiv f h step <= h / step * (1 + eps)
  /\ eps * h <= step
  /\ (h = w -> 999 < fdiv f h step).
Proof.
  intros Hw Hh step. unfold fdiv in *.
  assert (He := eps_pos). assert (He' := eps_small).
  assert (Hs0 : 0 < w / 1000) by (apply Rmult_lt_0_compat; lra).
  destruct (rnd_within f (w / 1000)) as [Hsl Hsu]; [lra |].
  fold step in Hsl, Hsu.
  assert (Hstep : 0 < step) by (unfold step; now apply rnd_pos).
  set (s0 := w / 1000) in *.
  assert (Hw0 : w = 1000 * s0) by (unfold s0; field).
  set (v := h / step).
  assert (Hv0 : 0 <= v).
  { unfold v. apply Rmult_le_pos; [lra |]. left. now apply Rinv_0_lt_compat. }
  assert (Hvs : v * step = h) by (unfold v; field; lra).
  destruct (rnd_within f v Hv0) as [Hql Hqu].
  assert (Hv1 : v * (1 - eps) <= 1000).
  { apply (Rmult_le_reg_r s0); [exact Hs0 |].
    assert (v * (s0 * (1 - eps)) <= v * step) by (apply Rmult_le_compat_l; lra).
    nra. }
  assert (Hv2 : v <= 1000 * (4000 / 3999)) by nra.
  split; [exact Hstep |].
  split; [split; [now apply rnd_nonneg | nra] |].
  split; [exact Hqu |].
  split; [nra |].
  intros ->.
  assert (Hv3 : 1000 <= v * (1 + eps)).
  { apply (Rmult_le_reg_r s0); [exact Hs0 |].
    assert (v * step <= v * (s0 * (1 + eps))) by (apply Rmult_le_compat_l; lra).
    nra. }
  nra.
Qed.

(** X7: for a window with minx <= maxx, miny <= maxy and positive
    extent, however the two divisions round, the grid built by [plot]
    (step = longer side / 1000) has at most 1001 points on each axis and
    1000 or 1001 on the longer one, and every grid coordinate starts at
    the lower bound and overshoots the upper bound by less than one
    step: minx <= x < maxx + step and miny <= y < maxy + step. *)
Theorem grid_fits_window :
  forall (f : rounding) (minx maxx miny maxy : R),
    minx <= maxx -> miny <= maxy ->
    0 < Rmax (maxx - minx) (maxy - miny) ->
    let step := fdiv f (Rmax (maxx - minx) (maxy - miny)) 1000 in
    let nx := mgrid_size f minx maxx step in
    let ny := mgrid_size f miny maxy step in
    0 < step
    /\ (0 <= nx <= 1001)%Z /\ (0 <= ny <= 1001)%Z
    /\ (Z.max nx ny = 1000%Z \/ Z.max nx ny = 1001%Z)
    /\ Forall (fun x => minx <= x < maxx + step) (mgrid_axis minx step (Z.to_nat nx))
    /\ Forall (fun y => miny <= y < maxy + step) (mgrid_axis miny step (Z.to_nat ny)).
Proof.
  intros f minx maxx miny maxy Hx Hy Hw step nx ny.
  set (w := Rmax (maxx - minx) (maxy - miny)) in *.
  assert (Hxw : 0 <= maxx - minx <= w) by (split; [lra | apply Rmax_l]).
  assert (Hyw : 0 <= maxy - miny <= w) by (split; [lra | apply Rmax_r]).
  destruct (size_quotient_bounds f w (maxx - minx) Hw Hxw)
    as (Hs & [Hx0 Hx1] & Hxq & Hxe & Hxl).
  destruct (size_quotient_bounds f w (maxy - miny) Hw Hyw)
    as (_ & [Hy0 Hy1] & Hyq & Hye & Hyl).
  fold step in Hs, Hx0, Hx1, Hxq, Hxe, Hxl, Hy0, Hy1, Hyq, Hye, Hyl.
  assert (Hnx : (0 <= nx <= 1001)%Z).
  { split; [now apply ceil_nonneg | now apply ceil_le]. }
  assert (Hny : (0 <= ny <= 1001)%Z).
  { split; [now apply ceil_nonneg | now apply ceil_le]. }
  assert (Haxis : forall lo hi,
            0 <= hi - lo ->
            fdiv f (hi - lo) step <= (hi - lo) / step * (1 + eps) ->
            eps * (hi - lo) <= step ->
            Forall (fun p => lo <= p < hi + step)
                   (mgrid_axis lo step (Z.to_nat (mgrid_size f lo hi step)))).
  { intros lo hi Hh Hq He. unfold mgrid_axis. apply Forall_forall. intros p Hp.
    apply list_elem_of_In, in_map_iff in Hp as (i & <- & Hi).
    apply in_seq in Hi.
    assert (Hlt : INR i < fdiv f (hi - lo) step).
    { apply below_ceil. unfold mgrid_size in Hi. lia. }
    assert (H0 : 0 <= INR i) by apply pos_INR.
    split; [nra |].
    assert (Hi2 : INR i * step < (hi - lo) / step * (1 + eps) * step)
      by (apply Rmult_lt_compat_r; lra).
    replace ((hi - lo) / step * (1 + eps) * step) with ((hi - lo) * (1 + eps)) in Hi2
      by (field; lra).
    lra. }
  split; [exact Hs |]. split; [exact Hnx |]. split; [exact Hny |].
  split; [| split; apply Haxis; lra].
  assert (Hlong : (999 < nx)%Z \/ (999 < ny)%Z).
  { unfold w, Rmax in *.
    destruct (Rle_dec (maxx - minx) (maxy - miny)).
    - right. apply ceil_gt. now apply Hyl.
    - left. apply ceil_gt. now apply Hxl. }
  lia.
Qed.

Lemma ceil_unique v (n : Z) : IZR n - 1 < v <= IZR n -> ceil v = n.
Proof.
  intros [Hl Hu]. unfold ceil.
  assert (H : (1 - n)%Z = up (- v)).
  { apply tech_up; rewrite minus_IZR; lra. }
  rewrite <- H. lia.
Qed.

(** With the step of the default window rounded just short of 0.022,
    each axis gets 1001 points. *)
Lemma short_step_gives_1001 :
  mgrid_size Samples.short_step_rounding (-11.0) 11.0
    (fdiv Samples.short_step_rounding (Rmax (11.0 - -11.0) (11.0 - -11.0)) 1000)
  = 1001%Z.
Proof.
  assert (He := eps_pos). assert (He' := eps_small).
  assert (Hw : Rmax (11.0 - -11.0) (11.0 - -11.0) = 22).
  { unfold Rmax. destruct (Rle_dec _ _); lra. }
  rewrite Hw. unfold mgrid_size, fdiv, Samples.short_step_rounding. cbn [rnd].
  destruct (Req_dec_T (22 / 1000) (22 / 1000)) as [_ | Hne]; [| now exfalso].
  set (v := (11.0 - -11.0) / (22 / 1000 * (1 - eps))).
  assert (Hd : 0 < 22 / 1000 * (1 - eps)) by nra.
  assert (Hvd : v * (22 / 1000 * (1 - eps)) = 11.0 - -11.0).
  { unfold v, Rdiv. rewrite Rmult_assoc, Rinv_l; lra. }
  assert (Hv : v * (1 - eps) = 1000) by nra.
  assert (Hv1 : 1000 < v <= 1001) by nra.
  destruct (Req_dec_T v (22 / 1000)) as [Heq | _]; [lra |].
  apply ceil_unique. lra.
Qed.

Lemma grid_fits_window_witness :
  -11.0 <= 11.0
  /\ 0 < Rmax (11.0 - -11.0) (11.0 - -11.0)
  /\ (0 <= mgrid_size Samples.short_step_rounding (-11.0) 11.0
            (fdiv Samples.short_step_rounding
               (Rmax (11.0 - -11.0) (11.0 - -11.0)) 1000) <= 1001)%Z
  /\ mgrid_size Samples.short_step_rounding (-11.0) 11.0
       (fdiv Samples.short_step_rounding (Rmax (11.0 - -11.0) (11.0 - -11.0)) 1000)
     = 1001%Z.
Proof.
  assert (Hx : -11.0 <= 11.0) by lra.
  assert (Hw : 0 < Rmax (11.0 - -11.0) (11.0 - -11.0)).
  { unfold Rmax. destruct (Rle_dec _ _); lra. }
  split; [exact Hx |]. split; [exact Hw |].
  destruct (grid_fits_window Samples.short_step_rounding (-11.0) 11.0 (-11.0) 11.0
              Hx Hx Hw) as (_ & Hnx & _).
  split; [exact Hnx | exact short_step_gives_1001].
Defined.

End PlotGrid.

(* ===================================================================== *)
(** * Further theorems: what the rejection loop holds and when it ends *)
(* ===================================================================== *)

Section RejectionLoop.
Import Py Np Notebook.

Lemma lookup_map {A B} (f : A -> B) (l : list A) (i : nat) :
  map f l !! i = option_map f (l !! i).
Proof.
  revert i. induction l as [| a l IH]; intros [| i]; simpl; auto.
Qed.

Lemma lookup_candidates g k n i :
  (i < n)%nat -> candidates g k n !! i = Some (place (g k i)).
Proof.
  intros Hi. unfold candidates. rewrite !lookup_map.
  now rewrite lookup_seq_lt.
Qed.

Lemma lookup_positions_after_succ g n j i p :
  (i < n)%nat ->
  positions_after g n j !! i = Some p ->
  positions_after g n (S j) !! i
  = Some (if passes p then p else place (g (S j) i)).
Proof.
  intros Hi Hp. rewrite positions_after_succ, lookup_zip_with.
  rewrite lookup_candidates by exact Hi. rewrite Hp. reflexivity.
Qed.

Lemma in_box u :
  (let '(a, b, c) := u in in01 a /\ in01 b /\ in01 c) ->
  -10 <= col0 (place u) < 10 /\ -10 <= col1 (place u) < 10.
Proof.
  destruct u as [[a b] c]. unfold in01, place, col0, col1. cbn [fst snd]. lra.
Qed.

(** X8: when every draw lies in [0,1), every row the loop ever holds,
    and so every accepted starting position, lies in the box
    -10 <= x < 10, -10 <= y < 10 with z = 0. *)
Theorem rows_stay_in_box :
  forall (g : rng) (n : nat),
    uniform01 g ->
    (forall j, Forall (fun p => -10 <= col0 p < 10 /\ -10 <= col1 p < 10 /\ snd p = 0)
                      (positions_after g n j))
    /\ (forall fuel p k,
          startingPositions g (Z.of_nat n) fuel = Ok (Accepted p k) ->
          Forall (fun q => -10 <= col0 q < 10 /\ -10 <= col1 q < 10 /\ snd q = 0) p).
Proof.
  intros g n Hu.
  assert (Hall : forall j,
            Forall (fun p => -10 <= col0 p < 10 /\ -10 <= col1 p < 10 /\ snd p = 0)
                   (positions_after g n j)).
  { intros j. apply Forall_positions_after. intros k i.
    destruct (in_box (g k i) (Hu k i)) as [Hx Hy].
    split; [exact Hx |]. split; [exact Hy | apply place_in_plane]. }
  split; [exact Hall |].
  intros fuel p k H. rewrite startingPositions_unfold in H.
  apply rejection_loop_exit in H as (_ & -> & _). apply Hall.
Qed.

Lemma retry_rng_uniform : uniform01 Samples.retry_rng.
Proof.
  intros k i. unfold Samples.retry_rng, in01.
  destruct k, i; lra.
Qed.

Lemma rows_stay_in_box_witness :
  uniform01 Samples.retry_rng
  /\ startingPositions Samples.retry_rng 2 5
     = Ok (Accepted [place (0, 1 / 2, 0); place (1 / 2, 0, 0)] 1)
  /\ Forall (fun q => -10 <= col0 q < 10 /\ -10 <= col1 q < 10 /\ snd q = 0)
            [place (0, 1 / 2, 0); place (1 / 2, 0, 0)].
Proof.
  split; [exact retry_rng_uniform |]. split; [exact retry_rng_accepted |].
  exact (proj2 (rows_stay_in_box Samples.retry_rng 2 retry_rng_uniform)
           5%nat _ 1%nat retry_rng_accepted).
Defined.

Lemma passing_row_kept_from g n i p : forall d j,
  (i < n)%nat ->
  positions_after g n j !! i = Some p -> passes p = true ->
  positions_after g n (d + j) !! i = Some p.
Proof.
  induction d as [| d IH]; intros j Hi Hp Hpass; [exact Hp |].
  cbn [Nat.add].
  rewrite (lookup_positions_after_succ g n (d + j) i p Hi (IH j Hi Hp Hpass)).
  now rewrite Hpass.
Qed.

(** X9: a row that passes the test at some iteration is frozen: the
    particle keeps exactly that position at every later iteration,
    whatever is drawn afterwards. *)
Theorem passing_row_is_frozen :
  forall (g : rng) (n j j' i : nat) (p : vec3),
    (j <= j')%nat ->
    positions_after g n j !! i = Some p ->
    passes p = true ->
    positions_after g n j' !! i = Some p.
Proof.
  intros g n j j' i p Hj Hp Hpass.
  assert (Hi : (i < n)%nat).
  { rewrite <- (length_positions_after g n j). eapply lookup_lt_Some; eauto. }
  replace j' with ((j' - j) + j)%nat by lia.
  now apply passing_row_kept_from.
Qed.

Lemma passing_row_is_frozen_witness :
  (0 <= 1)%nat
  /\ positions_after Samples.retry_rng 2 0 !! 0%nat = Some (place (0, 1 / 2, 0))
  /\ passes (place (0, 1 / 2, 0)) = true
  /\ positions_after Samples.retry_rng 2 1 !! 0%nat = Some (place (0, 1 / 2, 0)).
Proof.
  assert (Hj : (0 <= 1)%nat) by lia.
  assert (Hp : positions_after Samples.retry_rng 2 0 !! 0%nat
               = Some (place (0, 1 / 2, 0))) by reflexivity.
  split; [exact Hj |]. split; [exact Hp |]. split; [exact west_point_passes |].
  exact (passing_row_is_frozen Samples.retry_rng 2 0 1 0 _ Hj Hp west_point_passes).
Defined.

(** The proposal a row holds after [j] retries. *)
Lemma row_holds_first_passing g n i : forall j,
  (i < n)%nat ->
  exists k, (k <= j)%nat
    /\ positions_after g n j !! i = Some (place (g k i))
    /\ (forall k', (k' < k)%nat -> passes (place (g k' i)) = false)
    /\ ((k < j)%nat -> passes (place (g k i)) = true).
Proof.
  intros j Hi. induction j as [| j (k & Hk & Hrow & Hbefore & Hpass)].
  - exists 0%nat. split; [lia |].
    split; [now apply lookup_candidates |]. split; intros; lia.
  - rewrite (lookup_positions_after_succ g n j i _ Hi Hrow).
    destruct (passes (place (g k i))) eqn:Hpk.
    + exists k. repeat split; auto; lia.
    + exists (S j). split; [lia |]. split; [reflexivity |]. split; [| intros; lia].
      intros k' Hk'. destruct (Nat.lt_ge_cases k' k) as [Hlt | Hge]; [now apply Hbefore |].
      destruct (Nat.eq_dec k' k) as [-> | Hne]; [exact Hpk |].
      assert (Hkj : (k < j)%nat) by lia.
      specialize (Hpass Hkj). congruence.
Qed.

(** X10: the batched loop is rejection sampling per particle: after j
    retries, row i holds the first of its own proposals 0..j that passes
    the test, or proposal j when none of them passes. *)
Theorem row_is_first_passing_proposal :
  forall (g : rng) (n i j : nat),
    (i < n)%nat ->
    exists k, (k <= j)%nat
      /\ positions_after g n j !! i = Some (place (g k i))
      /\ (forall k', (k' < k)%nat -> passes (place (g k' i)) = false)
      /\ ((k < j)%nat -> passes (place (g k i)) = true).
Proof.
  intros g n i j Hi. now apply row_holds_first_passing.
Qed.

Lemma row_is_first_passing_proposal_witness :
  (1 < 2)%nat
  /\ exists k, (k <= 1)%nat
       /\ positions_after Samples.retry_rng 2 1 !! 1%nat
          = Some (place (Samples.retry_rng k 1%nat))
       /\ (forall k', (k' < k)%nat ->
             passes (place (Samples.retry_rng k' 1%nat)) = false).
Proof.
  assert (Hi : (1 < 2)%nat) by lia.
  split; [exact Hi |].
  destruct (row_is_first_passing_proposal Samples.retry_rng 2 1 1 Hi)
    as (k & Hk & Hrow & Hbefore & _).
  exists k. auto.
Defined.

Lemma batch_passes_iff g n j :
  batch_passes g n j = true
  <-> forall i, (i < n)%nat -> exists k, (k <= j)%nat /\ passes (place (g k i)) = true.
Proof.
  unfold batch_passes.
  rewrite closeness_mask_rows by (now rewrite Nat2Z.id, length_positions_after).
  rewrite all_map_passes, Forall_lookup. split.
  - intros H i Hi.
    destruct (row_holds_first_passing g n i j Hi) as (k & Hk & Hrow & _).
    exists k. split; [exact Hk | exact (H i _ Hrow)].
  - intros H i p Hp.
    assert (Hi : (i < n)%nat).
    { rewrite <- (length_positions_after g n j). eapply lookup_lt_Some; eauto. }
    destruct (row_holds_first_passing g n i j Hi) as (k & Hk & Hrow & Hbefore & Hpass).
    rewrite Hrow in Hp. inversion Hp; subst p.
    destruct (H i Hi) as (k0 & Hk0 & Hp0).
    destruct (Nat.lt_ge_cases k0 k) as [Hlt | Hge].
    + rewrite (Hbefore k0 Hlt) in Hp0. discriminate.
    + destruct (Nat.eq_dec k j) as [-> | Hne]; [| apply Hpass; lia].
      now replace j with k0 by lia.
Qed.

Lemma rejection_loop_finds g n : forall fuel k j,
  (k <= j <= k + fuel)%nat -> batch_passes g n j = true ->
  exists k', (k <= k' <= j)%nat
    /\ rejection_loop g (Z.of_nat n) fuel k (positions_after g n k)
       = Ok (Accepted (positions_after g n k') k').
Proof.
  induction fuel as [| fuel IH]; intros k j Hj Hp; rewrite rejection_loop_unfold;
    destruct (batch_passes g n k) eqn:Hk; try (exists k; split; [lia | reflexivity]).
  - assert (j = k) by lia. subst. congruence.
  - assert (Hne : j <> k) by (intros ->; congruence).
    destruct (IH (S k) j) as (k' & Hk' & Hrun); [lia | exact Hp |].
    exists k'. split; [lia | exact Hrun].
Qed.

(** X11: the loop ends within a given number of retries exactly when
    every particle has, among its own proposals of the initial draw and
    of those retries, one that passes the test; then it returns a batch
    of n rows. *)
Theorem loop_ends_iff_every_particle_has_a_passing_proposal :
  forall (g : rng) (n fuel : nat),
    (exists p k, (k <= fuel)%nat /\ List.length p = n
                 /\ startingPositions g (Z.of_nat n) fuel = Ok (Accepted p k))
    <-> (forall i, (i < n)%nat ->
           exists k, (k <= fuel)%nat /\ passes (place (g k i)) = true).
Proof.
  intros g n fuel. split.
  - intros (p & k & _ & _ & H) i Hi.
    rewrite startingPositions_unfold in H.
    apply rejection_loop_exit in H as (Hk & _ & Hp & _).
    destruct (proj1 (batch_passes_iff g n k) Hp i Hi) as (k0 & Hk0 & H0).
    exists k0. split; [lia | exact H0].
  - intros H. apply batch_passes_iff in H.
    destruct (rejection_loop_finds g n fuel 0 fuel) as (k' & Hk' & Hrun); [lia | exact H |].
    exists (positions_after g n k'), k'.
    split; [lia |]. split; [apply length_positions_after |].
    now rewrite startingPositions_unfold.
Qed.

Lemma loop_ends_iff_every_particle_has_a_passing_proposal_witness :
  (forall i, (i < 2)%nat ->
     exists k, (k <= 5)%nat /\ passes (place (Samples.retry_rng k i)) = true)
  /\ exists p k, (k <= 5)%nat /\ List.length p = 2%nat
       /\ startingPositions Samples.retry_rng 2 5 = Ok (Accepted p k).
Proof.
  assert (H : forall i, (i < 2)%nat ->
            exists k, (k <= 5)%nat /\ passes (place (Samples.retry_rng k i)) = true).
  { intros i Hi. exists 1%nat. split; [lia |]. exact south_point_passes. }
  split; [exact H |].
  exact (proj2 (loop_ends_iff_every_particle_has_a_passing_proposal
                  Samples.retry_rng 2 5) H).
Defined.

Lemma issue_app eng : forall l1 l2 done,
  issue eng done (l1 ++ l2)
  = match issue eng done l1 with
    | Built d => issue eng d l2
    | o => o
    end.
Proof.
  induction l1 as [| c l1 IH]; intros l2 done; simpl; [reflexivity |].
  destruct (eng done c); [reflexivity | apply IH].
Qed.

(** X12: with no particle the mask is empty and [np.all] of it holds:
    the loop leaves at once with no row and no retry.  The set-up then
    makes the engine calls of a system without particles; on an engine
    that refuses to create a simulation for such a system it ends with
    the engine's error at [Simulation(...)] or at an earlier call, so
    that [setPositions] is never called. *)
Theorem empty_ensemble_is_accepted :
  forall (eng : engine_check) (g : rng) (fuel : nat) (cfg : Config),
    nParticles cfg = 0%Z ->
    let before :=
      [NewTwoDFunnel TwoDFunnel.expression; NewSystem; NewTopology;
       TopologyAddChain "A"; TopologyAddResidue "1"; ElementGetBySymbol "H";
       NewTwoDFunnel TwoDFunnel.expression; SystemAddForce;
       NewLangevinMiddleIntegrator (temperature cfg) (friction cfg) (timestep cfg)] in
    startingPositions g (nParticles cfg) fuel = Ok (Accepted [] 0)
    /\ setup eng cfg g fuel
       = issue eng [] (before ++ [NewSimulation; SetPositions [];
                                  SetVelocitiesToTemperature (temperature cfg)])
    /\ ((forall done, Trace.has_particle done = false ->
                      eng done NewSimulation <> None) ->
        exists e done at_call post,
          before ++ [NewSimulation] = done ++ at_call :: post
          /\ setup eng cfg g fuel = EngineRaised e done at_call).
Proof.
  intros eng g fuel cfg Hn before.
  assert (Hs : startingPositions g (nParticles cfg) fuel = Ok (Accepted [] 0)).
  { rewrite Hn. change 0%Z with (Z.of_nat 0).
    rewrite startingPositions_unfold, rejection_loop_unfold. reflexivity. }
  assert (Hrun : setup eng cfg g fuel
                 = issue eng [] (before ++ [NewSimulation; SetPositions [];
                                  SetVelocitiesToTemperature (temperature cfg)])).
  { unfold setup. rewrite Hs. unfold build_system. rewrite Hn. reflexivity. }
  split; [exact Hs |]. split; [exact Hrun |].
  intros Hrefuse. rewrite Hrun, issue_app.
  destruct (issue_ends eng before [])
    as [-> | (e & pre & c & post & Hsplit & _ & ->)].
  - cbn [app issue].
    destruct (eng before NewSimulation) as [e |] eqn:He.
    + exists e, before, NewSimulation, []. split; reflexivity.
    + exfalso. apply (Hrefuse before); [reflexivity | exact He].
  - exists e, pre, c, (post ++ [NewSimulation]).
    split; [| reflexivity].
    rewrite Hsplit, <- app_assoc. reflexivity.
Qed.

Lemma empty_ensemble_is_accepted_witness :
  nParticles Samples.empty_config = 0%Z
  /\ startingPositions Samples.stuck_rng (nParticles Samples.empty_config) 0
     = Ok (Accepted [] 0)
  /\ setup Samples.rejects_empty_system Samples.empty_config Samples.stuck_rng 0
     = EngineRaised OpenMMException
         [NewTwoDFunnel TwoDFunnel.expression; NewSystem; NewTopology;
          TopologyAddChain "A"; TopologyAddResidue "1"; ElementGetBySymbol "H";
          NewTwoDFunnel TwoDFunnel.expression; SystemAddForce;
          NewLangevinMiddleIntegrator 750 100 10.0]
         NewSimulation.
Proof.
  assert (H : nParticles Samples.empty_config = 0%Z) by reflexivity.
  destruct (empty_ensemble_is_accepted Samples.rejects_empty_system
              Samples.stuck_rng 0 Samples.empty_config H) as (Hs & Hrun & _).
  split; [exact H |]. split; [exact Hs |].
  rewrite Hrun. reflexivity.
Defined.

End RejectionLoop.

(* ===================================================================== *)
(** * Further theorems: the system that is built *)
(* ===================================================================== *)

Section BuiltSystem.
Import Py Np Notebook Trace.

Lemma str_inj i j : str i = str j -> i = j.
Proof.
  unfold str. intros H.
  apply (f_equal NilEmpty.uint_of_string) in H.
  rewrite !NilEmpty.usu in H. inversion H as [H'].
  now apply Unsigned.to_uint_inj.
Qed.

Lemma NoDup_map_inj {A B} (f : A -> B) (l : list A) :
  (forall a b, f a = f b -> a = b) -> NoDup l -> NoDup (map f l).
Proof.
  intros Hf. induction 1 as [| a l Ha Hl IH]; simpl; constructor; [| exact IH].
  intros Hin. apply list_elem_of_In, in_map_iff in Hin as (b & Hb & Hin).
  apply Hf in Hb. subst. now apply Ha, list_elem_of_In.
Qed.

(** The calls made for the particles [l], read back. *)
Lemma particle_calls (m : R) (l : list nat) :
  let calls := flat_map (fun i =>
                 [SystemAddParticle m; ForceAddParticle i [];
                  TopologyAddAtom (String.append "X" (str i)) i]) l in
  system_masses calls = map (fun _ => m) l
  /\ force_particles calls = map (fun i => (i, [])) l
  /\ atoms calls = map (fun i => (String.append "X" (str i), i)) l
  /\ positions_set calls = []
  /\ forces_made calls = [].
Proof.
  induction l as [| i l (H1 & H2 & H3 & H4 & H5)]; [now repeat split |].
  cbn -[str String.append] in *.
  unfold system_masses, force_particles, atoms, positions_set, forces_made in *.
  cbn -[str String.append].
  now rewrite H1, H2, H3, H4, H5.
Qed.

(** X13: the system gets exactly one particle per index 0..n-1, each of
    the configured mass; the force gets the same indices in the same
    order, each with no per-particle parameter; the atoms are named
    'X0', 'X1', ... with pairwise distinct names; two force objects are
    constructed from the same expression; and the force is added to the
    system after all particles, as the last call. *)
Theorem system_has_one_particle_per_index :
  forall cfg : Config,
    let n := Z.to_nat (nParticles cfg) in
    let calls := build_system cfg in
    system_masses calls = repeat (mass cfg) n
    /\ force_particles calls = map (fun i => (i, [])) (seq 0 n)
    /\ map snd (atoms calls) = seq 0 n
    /\ map fst (atoms calls) = map (fun i => String.append "X" (str i)) (seq 0 n)
    /\ NoDup (map fst (atoms calls))
    /\ forces_made calls = [TwoDFunnel.expression; TwoDFunnel.expression]
    /\ last calls = Some SystemAddForce
    /\ List.length calls = (8 + 3 * n)%nat.
Proof.
  intros cfg n calls. subst calls. unfold build_system. fold n.
  destruct (particle_calls (mass cfg) (seq 0 n)) as (H1 & H2 & H3 & H4 & H5).
  set (ps := flat_map _ (seq 0 n)) in *.
  assert (Hatoms : atoms ([NewTwoDFunnel TwoDFunnel.expression; NewSystem; NewTopology;
                           TopologyAddChain "A"; TopologyAddResidue "1";
                           ElementGetBySymbol "H"; NewTwoDFunnel TwoDFunnel.expression]
                          ++ ps ++ [SystemAddForce])
                   = map (fun i => (String.append "X" (str i), i)) (seq 0 n)).
  { unfold atoms in *. rewrite !flat_map_app, H3. simpl. now rewrite app_nil_r. }
  split; [| split; [| split; [| split; [| split; [| split; [| split]]]]]].
  - unfold system_masses in *. rewrite !flat_map_app, H1. simpl.
    rewrite app_nil_r. clear. generalize 0%nat.
    induction n as [| n IH]; intros s; simpl; [reflexivity | now rewrite IH].
  - unfold force_particles in *. rewrite !flat_map_app, H2. simpl.
    now rewrite app_nil_r.
  - rewrite Hatoms, map_map. simpl. apply map_id.
  - rewrite Hatoms, map_map. reflexivity.
  - rewrite Hatoms, map_map. simpl. apply NoDup_map_inj; [| apply NoDup_seq].
    intros a b Hab. apply str_inj. simpl in Hab. now inversion Hab.
  - unfold forces_made in *. rewrite !flat_map_app, H5. reflexivity.
  - rewrite app_assoc. apply last_snoc.
  - rewrite !length_app. simpl. subst ps.
    assert (Hl : forall l : list nat,
              List.length (flat_map (fun i =>
                 [SystemAddParticle (mass cfg); ForceAddParticle i [];
                  TopologyAddAtom (String.append "X" (str i)) i]) l)
              = (3 * List.length l)%nat).
    { induction l as [| i l IH]; [reflexivity |].
      cbn -[str String.append Nat.mul]. rewrite IH. lia. }
    rewrite Hl, length_seq. lia.
Qed.

Lemma map_const_seq {A} (a : A) (n s : nat) :
  map (fun _ => a) (seq s n) = repeat a n.
Proof.
  revert s. induction n as [| n IH]; intros s; simpl;
    [reflexivity | now rewrite IH].
Qed.

Lemma build_system_masses cfg :
  system_masses (build_system cfg) = repeat (mass cfg) (Z.to_nat (nParticles cfg)).
Proof.
  unfold build_system.
  destruct (particle_calls (mass cfg) (seq 0 (Z.to_nat (nParticles cfg))))
    as (H1 & _).
  unfold system_masses in *. rewrite !flat_map_app, H1. simpl.
  rewrite app_nil_r. apply map_const_seq.
Qed.

Lemma build_system_sets_no_positions cfg : positions_set (build_system cfg) = [].
Proof.
  unfold build_system.
  destruct (particle_calls (mass cfg) (seq 0 (Z.to_nat (nParticles cfg))))
    as (_ & _ & _ & H4 & _).
  unfold positions_set in *. rewrite !flat_map_app, H4. reflexivity.
Qed.

(** X14: whenever the set-up completes, [setPositions] is called exactly
    once, with an array that has one row per particle added to the
    system, every row of which passes the closeness test and has z = 0. *)
Theorem positions_match_particles :
  forall (eng : engine_check) (cfg : Config) (g : rng) (fuel : nat)
         (calls : list engine_call),
    setup eng cfg g fuel = Built calls ->
    exists pos,
      positions_set calls = [pos]
      /\ List.length pos = List.length (system_masses calls)
      /\ List.length pos = Z.to_nat (nParticles cfg)
      /\ Forall (fun q => passes q = true /\ snd q = 0) pos.
Proof.
  intros eng cfg g fuel calls H. unfold setup in H.
  destruct (startingPositions g (nParticles cfg) fuel) as [[pos k |] | e] eqn:Hs;
    try discriminate.
  assert (Hc : calls = build_system cfg ++ build_simulation cfg pos).
  { destruct (issue_ends eng (build_system cfg ++ build_simulation cfg pos) [])
      as [Hb | (e & pre & c & post & _ & _ & Hb)]; rewrite Hb in H;
      [now inversion H | discriminate]. }
  subst calls. clear H.
  destruct (Z.ltb_spec (nParticles cfg) 0) as [Hneg | Hpos].
  { unfold startingPositions in Hs. rewrite draw_negative in Hs by exact Hneg.
    discriminate. }
  rewrite <- (Z2Nat.id (nParticles cfg)) in Hs by exact Hpos.
  rewrite startingPositions_unfold in Hs.
  apply rejection_loop_exit in Hs as (_ & -> & Hpass & _).
  set (n := Z.to_nat (nParticles cfg)) in *.
  exists (positions_after g n k).
  split; [| split; [| split]].
  - unfold positions_set. rewrite flat_map_app.
    fold (positions_set (build_system cfg)).
    now rewrite build_system_sets_no_positions.
  - unfold system_masses. rewrite flat_map_app.
    fold (system_masses (build_system cfg)).
    rewrite build_system_masses. simpl.
    now rewrite app_nil_r, repeat_length, length_positions_after.
  - apply length_positions_after.
  - unfold batch_passes in Hpass.
    rewrite closeness_mask_rows in Hpass
      by (now rewrite Nat2Z.id, length_positions_after).
    apply all_map_passes in Hpass.
    assert (Hz := Forall_positions_after (fun q => snd q = 0) g n k
                    (fun _ _ => place_in_plane _)).
    rewrite Forall_forall in *. intros q Hq. split; [now apply Hpass | now apply Hz].
Qed.

Lemma bad_config_built :
  setup Samples.rejects_empty_system Samples.bad_config Samples.circle_rng 0
  = Built (build_system Samples.bad_config
           ++ build_simulation Samples.bad_config [place (0, 1 / 2, 0)]).
Proof.
  unfold setup. rewrite bad_config_accepted. reflexivity.
Qed.

Lemma positions_match_particles_witness :
  setup Samples.rejects_empty_system Samples.bad_config Samples.circle_rng 0
  = Built (build_system Samples.bad_config
           ++ build_simulation Samples.bad_config [place (0, 1 / 2, 0)])
  /\ exists pos,
       positions_set (build_system Samples.bad_config
                      ++ build_simulation Samples.bad_config [place (0, 1 / 2, 0)])
       = [pos]
       /\ List.length pos = 1%nat.
Proof.
  split; [exact bad_config_built |].
  destruct (positions_match_particles _ _ _ _ _ bad_config_built)
    as (pos & Hset & _ & Hlen & _).
  exists pos. split; [exact Hset | exact Hlen].
Defined.

End BuiltSystem.

(* ===================================================================== *)
(** * Further theorems: runs of the sampling loop *)
(* ===================================================================== *)

Section SamplingRuns.
Import Py Np Notebook.

(** X15: a run of a + b iterations is a run of a iterations followed by
    a run of b iterations from the state the first one leaves: the
    traces concatenate and the final state is the same. *)
Theorem sampling_loop_splits :
  forall (E : Engine) (a b steps : nat) (c : context E),
    sampling_loop E (a + b) steps c
    = (fst (sampling_loop E a steps c)
       ++ fst (sampling_loop E b steps (snd (sampling_loop E a steps c))),
       snd (sampling_loop E b steps (snd (sampling_loop E a steps c)))).
Proof.
  intros E a b steps. induction a as [| a IH]; intros c.
  - simpl. now destruct (sampling_loop E b steps c).
  - cbn [Nat.add sampling_loop]. rewrite IH.
    destruct (sampling_loop E a steps (integrator_step E steps c)) as [e1 c1].
    reflexivity.
Qed.

Lemma snapshots_of_completed steps (xs : list (list vec3)) :
  snapshots (flat_map (iteration_of steps) xs)
  = map (fun x => (map col0 x, map col1 x)) xs.
Proof.
  induction xs as [| x xs IH]; [reflexivity |].
  cbn [flat_map map]. unfold snapshots in *. rewrite flat_map_app, IH.
  reflexivity.
Qed.

(** A loop that ends normally has completed every iteration. *)
Lemma try_sampling_loop_done (E : RaisingEngine) steps :
  forall n (c : rcontext E) evs c',
    try_sampling_loop E n steps c = RunDone evs c' ->
    exists xs, List.length xs = n /\ evs = flat_map (iteration_of steps) xs.
Proof.
  induction n as [| n IH]; intros c evs c' H; cbn [try_sampling_loop] in H.
  - inversion H; subst. now exists [].
  - destruct (try_getPositions E c) as [x | e]; [| discriminate].
    destruct (try_step E steps c) as [c1 | e]; [| discriminate].
    destruct (try_sampling_loop E n steps c1) as [evs1 c2 | e evs1] eqn:Hrec;
      [| discriminate].
    inversion H; subst.
    destruct (IH _ _ _ Hrec) as (xs & Hlen & ->).
    exists (x :: xs). split; [simpl; now rewrite Hlen | reflexivity].
Qed.

(** A loop that is aborted stopped at the first engine call that raised,
    with that call's error, after fewer complete iterations than asked. *)
Lemma try_sampling_loop_aborted (E : RaisingEngine) steps :
  forall n (c : rcontext E) e evs,
    try_sampling_loop E n steps c = RunAborted e evs ->
    exists xs tail ck,
      (List.length xs < n)%nat
      /\ evs = flat_map (iteration_of steps) xs ++ tail
      /\ ((tail = [] /\ try_getPositions E ck = Err e)
          \/ exists x, tail = [Scatter (map col0 x) (map col1 x)]
                       /\ try_getPositions E ck = Ok x
                       /\ try_step E steps ck = Err e).
Proof.
  induction n as [| n IH]; intros c e evs H; cbn [try_sampling_loop] in H;
    [discriminate |].
  destruct (try_getPositions E c) as [x | e0] eqn:Hget.
  - destruct (try_step E steps c) as [c1 | e1] eqn:Hstep.
    + destruct (try_sampling_loop E n steps c1) as [evs1 c2 | e1 evs1] eqn:Hrec;
        [discriminate |].
      inversion H; subst.
      destruct (IH _ _ _ Hrec) as (xs & tail & ck & Hlen & -> & Horigin).
      exists (x :: xs), tail, ck. split; [simpl; lia |].
      split; [| exact Horigin].
      cbn [flat_map]. now rewrite <- app_assoc.
    + inversion H; subst.
      exists [], [Scatter (map col0 x) (map col1 x)], c.
      split; [simpl; lia |]. split; [reflexivity |]. right. exists x. auto.
  - inversion H; subst. exists [], [], c.
    split; [simpl; lia |]. split; [reflexivity |]. left. auto.
Qed.

(** On an engine whose calls always return, the loop is the loop of the
    total engine. *)
Lemma try_sampling_loop_reliable (E : Engine) steps :
  forall n (c : context E),
    try_sampling_loop (reliable E) n steps c
    = RunDone (fst (sampling_loop E n steps c)) (snd (sampling_loop E n steps c)).
Proof.
  induction n as [| n IH]; intros c; [reflexivity |].
  cbn [try_sampling_loop sampling_loop reliable try_getPositions try_step].
  rewrite IH.
  destruct (sampling_loop E n steps (integrator_step E steps c)) as [evs c'].
  reflexivity.
Qed.

Lemma no_show_in_iterations steps (xs : list (list vec3)) :
  ~ In ShowFigure (flat_map (iteration_of steps) xs).
Proof.
  intros H. apply in_flat_map in H as (x & _ & Hx).
  simpl in Hx. intuition discriminate.
Qed.

(** X16: cell 10, for any rounding of the divisions and any engine whose
    calls may raise.  The contours are always drawn on [plt] first.  If
    the cell completes, exactly 1000 snapshots were scattered, each
    followed by [integrator.step(250)], and [plt.show()] is the last
    event.  If an engine call raises, the cell ends there with that same
    error, after fewer than 1000 complete iterations, the last event
    being the snapshot of the state on which the step raised (or none,
    when the state accessor raised), and [plt.show()] is never reached.
    On an engine whose calls always return the cell completes with the
    trace of the sampling loop, 1000 * 250 steps on. *)
Theorem run_of_notebook :
  forall f : rounding,
    (forall (E : RaisingEngine) (c : rcontext E),
        (exists xx yy V kw,
            fst (run f E c) = [TwoDFunnel.Contourf Plt xx yy V 8 kw;
                               TwoDFunnel.Colorbar Plt])
        /\ (forall evs c',
              snd (run f E c) = RunDone evs c' ->
              exists xs,
                List.length xs = 1000%nat
                /\ evs = flat_map (iteration_of 250) xs ++ [ShowFigure]
                /\ List.length (snapshots evs) = 1000%nat
                /\ last evs = Some ShowFigure)
        /\ (forall e evs,
              snd (run f E c) = RunAborted e evs ->
              ~ In ShowFigure evs
              /\ exists xs tail ck,
                   (List.length xs < 1000)%nat
                   /\ evs = flat_map (iteration_of 250) xs ++ tail
                   /\ ((tail = [] /\ try_getPositions E ck = Err e)
                       \/ exists x, tail = [Scatter (map col0 x) (map col1 x)]
                                    /\ try_getPositions E ck = Ok x
                                    /\ try_step E 250 ck = Err e)))
    /\ (forall (E : Engine) (c : context E),
          snd (run f (reliable E) c)
          = RunDone (fst (sampling_loop E 1000 250 c) ++ [ShowFigure])
                    (integrator_step E (1000 * 250) c)).
Proof.
  intros f. split.
  - intros E c. unfold run.
    destruct (plot_keyword_ax_returns f (Axes 0)) as (xx & yy & V & kw & ->).
    split; [| split].
    + destruct (try_sampling_loop E 1000 250 c); cbn [fst]; eauto.
    + intros evs c' H.
      destruct (try_sampling_loop E 1000 250 c) as [evs1 c1 | e1 evs1] eqn:Hloop;
        cbn [snd] in H; [| discriminate].
      inversion H; subst.
      destruct (try_sampling_loop_done _ _ _ _ _ _ Hloop) as (xs & Hlen & ->).
      exists xs. split; [exact Hlen |]. split; [reflexivity |].
      split; [| apply last_snoc].
      unfold snapshots. rewrite flat_map_app.
      fold (snapshots (flat_map (iteration_of 250) xs)).
      rewrite snapshots_of_completed, length_app, length_map, Hlen. reflexivity.
    + intros e evs H.
      destruct (try_sampling_loop E 1000 250 c) as [evs1 c1 | e1 evs1] eqn:Hloop;
        cbn [snd] in H; [discriminate |].
      inversion H; subst.
      destruct (try_sampling_loop_aborted _ _ _ _ _ _ Hloop)
        as (xs & tail & ck & Hlen & -> & Horigin).
      split; [| exists xs, tail, ck; auto].
      intros Hin. apply in_app_or in Hin as [Hin | Hin].
      * exact (no_show_in_iterations _ _ Hin).
      * destruct Horigin as [[-> _] | (x & -> & _)]; simpl in Hin;
          intuition discriminate.
  - intros E c. unfold run.
    destruct (plot_keyword_ax_returns f (Axes 0)) as (xx & yy & V & kw & ->).
    rewrite try_sampling_loop_reliable, sampling_loop_events. reflexivity.
Qed.

Lemma run_of_notebook_witness :
  snd (run Samples.short_step_rounding (reliable Samples.counter_engine) 0%nat)
  = RunDone (fst (sampling_loop Samples.counter_engine 1000 250 0%nat) ++ [ShowFigure])
            (integrator_step Samples.counter_engine (1000 * 250) 0%nat)
  /\ List.length
       (snapshots (fst (sampling_loop Samples.counter_engine 1000 250 0%nat)
                   ++ [ShowFigure])) = 1000%nat
  /\ snd (run Samples.short_step_rounding Samples.diverging_engine 0%nat)
     = RunAborted OpenMMException
         [Scatter [INR 0] [0]; IntegratorStep 250;
          Scatter [INR 250] [0]; IntegratorStep 250;
          Scatter [INR 500] [0]]
  /\ ~ In ShowFigure
         [Scatter [INR 0] [0]; IntegratorStep 250;
          Scatter [INR 250] [0]; IntegratorStep 250;
          Scatter [INR 500] [0]].
Proof.
  destruct (run_of_notebook Samples.short_step_rounding) as [Hany Hrel].
  assert (Hdone := Hrel Samples.counter_engine 0%nat).
  destruct (Hany (reliable Samples.counter_engine) 0%nat) as (_ & Hd & _).
  destruct (Hd _ _ Hdone) as (xs & _ & _ & Hcount & _).
  assert (Habort :
            snd (run Samples.short_step_rounding Samples.diverging_engine 0%nat)
            = RunAborted OpenMMException
                [Scatter [INR 0] [0]; IntegratorStep 250;
                 Scatter [INR 250] [0]; IntegratorStep 250;
                 Scatter [INR 500] [0]]).
  { unfold run.
    destruct (plot_keyword_ax_returns Samples.short_step_rounding (Axes 0))
      as (xx & yy & V & kw & ->).
    reflexivity. }
  destruct (Hany Samples.diverging_engine 0%nat) as (_ & _ & Ha).
  destruct (Ha _ _ Habort) as (Hnoshow & _).
  split; [exact Hdone |]. split; [exact Hcount |].
  split; [exact Habort | exact Hnoshow].
Defined.

End SamplingRuns.

(* ===================================================================== *)
(** * Further theorems: the bottom of the funnel *)
(* ===================================================================== *)

Section FunnelBottom.

Lemma sin_sq_le_sq rho : 0 <= rho -> sin rho * sin rho <= rho * rho.
Proof.
  intros Hr. assert (Hb := SIN_bound rho).
  destruct (Rle_dec 1 rho) as [H1 | H1]; [nra |].
  assert (Hpi := PI2_1).
  assert (H0 : 0 <= sin rho) by (apply sin_ge_0; lra).
  assert (Hle : sin rho <= rho).
  { destruct Hr as [Hr | <-]; [left; now apply sin_lt_x | rewrite sin_0; lra]. }
  nra.
Qed.

Lemma exp_neg_bound s : 0 <= s -> 0 < exp (- s) /\ exp (- s) * (1 + s) <= 1.
Proof.
  intros Hs. assert (Hp := exp_pos (- s)). split; [exact Hp |].
  assert (Hge := exp_ineq1_le s).
  assert (Hinv : exp (- s) * exp s = 1) by (rewrite <- exp_plus, Rplus_opp_l; apply exp_0).
  nra.
Qed.

Lemma potential_at_origin : TwoDFunnel.potential 0 0 = -6.
Proof.
  unfold TwoDFunnel.potential.
  replace (0 ^ 2 + 0 ^ 2) with 0 by ring.
  rewrite sqrt_0, Rmult_0_r, cos_0, Ropp_0, exp_0. lra.
Qed.

(** X1: the origin is the bottom of the funnel: potential(0, 0) = -6,
    and at every point potential(x, y) lies in the band
    w - 6 <= potential(x, y) < w + 2 around its confining term
    w = 0.2*((x/8)^2+(y/8)^2)^3 >= 0; so -6 is the global minimum. *)
Theorem origin_is_global_minimum :
  TwoDFunnel.potential 0 0 = -6
  /\ forall x y : R,
       let w := 0.2 * ((x / 8) ^ 2 + (y / 8) ^ 2) ^ 3 in
       0 <= w
       /\ w - 6 <= TwoDFunnel.potential x y
       /\ TwoDFunnel.potential x y < w + 2
       /\ TwoDFunnel.potential 0 0 <= TwoDFunnel.potential x y.
Proof.
  split; [exact potential_at_origin |].
  intros x y w. rewrite potential_at_origin. unfold TwoDFunnel.potential.
  assert (Hw := wall_nonneg x y). fold w in Hw |- *.
  assert (Hc := COS_bound (2 * sqrt (x ^ 2 + y ^ 2))).
  set (s := x ^ 2 + y ^ 2) in *.
  assert (Hs : 0 <= s) by apply radius_sq_nonneg.
  assert (Hrho : 0 <= sqrt s) by apply sqrt_pos.
  assert (Hsq : sqrt s * sqrt s = s) by now apply sqrt_sqrt.
  rewrite cos_2a_sin in *.
  assert (Ht := sin_sq_le_sq (sqrt s) Hrho). rewrite Hsq in Ht.
  assert (Ht1 : sin (sqrt s) * sin (sqrt s) <= 1).
  { assert (Hb := SIN_bound (sqrt s)). nra. }
  destruct (exp_neg_bound s Hs) as [Hep He].
  set (e := exp (- s)) in *. set (t := sin (sqrt s)) in *.
  assert (Hkey : 8 * e <= 8 - 4 * (t * t)).
  { destruct (Rle_dec s 1) as [Hs1 | Hs1].
    - assert (H : e <= 1 - s / 2) by nra. nra.
    - assert (H : e <= 1 / 2) by nra. nra. }
  repeat split; nra.
Qed.

End FunnelBottom.
